(** * Claude Token Monitor: the polling and normalisation core of extension.js

    A shallow embedding of the parts of [extension.js] that decide what the
    panel shows and when it polls again: the HTTP helper [_get], the account
    lookup [_fetchAccount], the usage fetch [_fetchUsage], the multi-schema
    parser and adaptive scheduler in [_applyUsageData], and the helper
    [_safeInt].

    Conventions of the embedding.
    - [json] is the value handed to the callbacks by [JSON.parse]: an object
      is the list of its own properties in the order [Object.values] and
      [Object.entries] enumerate them.
    - A JavaScript value that may also be [undefined] is an [option json].
    - A string is a [string] whose characters are UTF-16 code units below 256.
    - A number is an integer [Z].  The source computes with doubles; the
      two agree on integers of magnitude below 2^53, and the statements
      about computed values carry that range ([safe_integer], [exact_payload]).
      A number with a fraction has no counterpart here.
    - Code that can raise a [TypeError] returns an [outcome].
    - There are two models of a request.  In the first a request and its
      completion callback are one step: [_get] takes the answer of the
      network as a function of the URL and runs the callback on it, and
      [poll] is a whole cycle, from the timer callback to the last callback
      of the requests it started.  In the second, [Async], a request stays
      in flight until its response is delivered and other handlers run in
      between.  The first is the second when nothing happens between a
      request and its response. *)

From Stdlib Require Import ZArith List String Ascii Bool Lia.
From Stdlib Require Import Decimal DecimalString DecimalZ DecimalPos.
Import ListNotations.

#[local] Open Scope string_scope.
#[local] Open Scope Z_scope.

(** ** Exceptions *)

Inductive outcome (A : Type) : Type :=
| Ret (a : A)
| TypeError.

Arguments Ret {A} a.
Arguments TypeError {A}.

Definition bind {A B : Type} (m : outcome A) (k : A -> outcome B) : outcome B :=
  match m with
  | Ret a => k a
  | TypeError => TypeError
  end.

Notation "x <- m ;; k" := (bind m (fun x => k))
  (at level 61, m at next level, right associativity).

(** ** JavaScript values decoded from JSON *)

#[local] Unset Elimination Schemes.
Inductive json : Type :=
| JNull
| JBool (b : bool)
| JNum (z : Z)
| JStr (s : string)
| JArr (items : list json)
| JObj (props : list (string * json)).
#[local] Set Elimination Schemes.

Definition value : Type := option json.

Definition undefined : value := None.

Fixpoint lookup (k : string) (props : list (string * json)) : value :=
  match props with
  | [] => None
  | (k', v) :: rest => if String.eqb k k' then Some v else lookup k rest
  end.

(** [v?.k] for the property names the source reads; none of them is defined
    on a built-in prototype, so only own properties of objects answer. *)
Definition get (v : value) (k : string) : value :=
  match v with
  | Some (JObj props) => lookup k props
  | _ => None
  end.

(** [v?.[0]]: arrays and strings answer an index, objects the own key "0". *)
Definition get0 (v : value) : value :=
  match v with
  | Some (JArr (x :: _)) => Some x
  | Some (JStr (String c _)) => Some (JStr (String c ""))
  | Some (JObj props) => lookup "0" props
  | _ => None
  end.

(** [a ?? b] *)
Definition nullish (v : value) : bool :=
  match v with
  | None | Some JNull => true
  | _ => false
  end.

Definition coalesce (a b : value) : value :=
  if nullish a then b else a.

Infix "??" := coalesce (at level 45, right associativity).

(** [... ?? null] as the last alternative never leaves [undefined]. *)
Definition or_null (v : value) : json :=
  match v with
  | Some j => j
  | None => JNull
  end.

(** ToBoolean *)
Definition truthy (v : value) : bool :=
  match v with
  | None => false
  | Some JNull => false
  | Some (JBool b) => b
  | Some (JNum z) => negb (z =? 0)
  | Some (JStr s) => negb (String.eqb s "")
  | Some (JArr _) => true
  | Some (JObj _) => true
  end.

(** ** Strings *)

(** Number::toString on an integer: decimal digits, a minus sign if
    negative.  This is what the source prints for magnitudes below 10^21. *)
Definition Number_toString (z : Z) : string :=
  NilEmpty.string_of_int (Z.to_int z).

Definition has_own (k : string) (props : list (string * json)) : bool :=
  existsb (fun p => String.eqb k (fst p)) props.

(** Array.prototype.join with a comma: a [null] element contributes the
    empty string, any other element its own conversion. *)
Section Join.

Variable elem : json -> outcome string.

Fixpoint join (l : list json) : outcome string :=
  match l with
  | [] => Ret ""
  | x :: rest =>
      s <- match x with
           | JNull => Ret ""
           | _ => elem x
           end ;;
      match rest with
      | [] => Ret s
      | _ :: _ => r <- join rest ;; Ret (s ++ "," ++ r)
      end
  end.

End Join.

(** ToString.  An array joins its elements.  An object answers through
    [Object.prototype.toString] unless an own property named toString shadows
    it: a decoded value is never callable, [valueOf] then returns the object
    itself, and the conversion raises a [TypeError]. *)
Fixpoint ToString_json (j : json) : outcome string :=
  match j with
  | JNull => Ret "null"
  | JBool true => Ret "true"
  | JBool false => Ret "false"
  | JNum z => Ret (Number_toString z)
  | JStr s => Ret s
  | JArr items => join ToString_json items
  | JObj props =>
      if has_own "toString" props then TypeError else Ret "[object Object]"
  end.

Definition ToString (v : value) : outcome string :=
  match v with
  | None => Ret "undefined"
  | Some j => ToString_json j
  end.

(** ** Regular expressions

    The literals of the source are alternatives of short sequences of
    characters, [.] and [.?], all with the [i] flag and no anchors. *)

Inductive atom : Type :=
| Lit (c : ascii)
| Dot
| OptDot.

Definition regex : Type := list (list atom).

Definition upcase (c : ascii) : ascii :=
  let n := nat_of_ascii c in
  if ((97 <=? n) && (n <=? 122))%nat then ascii_of_nat (n - 32) else c.

(** A pattern character (a letter or a digit here) against an input code
    unit under the [i] flag. *)
Definition lit_matches (p x : ascii) : bool :=
  Ascii.eqb (upcase p) (upcase x).

(** [.] matches everything but a line terminator. *)
Definition dot_matches (x : ascii) : bool :=
  negb (Ascii.eqb x "010" || Ascii.eqb x "013")%char.

Fixpoint match_here (p : list atom) (s : string) : bool :=
  match p with
  | [] => true
  | Lit c :: p' =>
      match s with
      | String x s' => lit_matches c x && match_here p' s'
      | EmptyString => false
      end
  | Dot :: p' =>
      match s with
      | String x s' => dot_matches x && match_here p' s'
      | EmptyString => false
      end
  | OptDot :: p' =>
      match s with
      | String x s' => (dot_matches x && match_here p' s') || match_here p' s
      | EmptyString => match_here p' s
      end
  end.

Definition match_at (r : regex) (s : string) : bool :=
  existsb (fun p => match_here p s) r.

Fixpoint search (r : regex) (s : string) : bool :=
  match_at r s ||
  match s with
  | EmptyString => false
  | String _ s' => search r s'
  end.

(** [re.test(v)]: the argument is converted with ToString first. *)
Definition test (r : regex) (v : value) : outcome bool :=
  s <- ToString v ;; Ret (search r s).

Fixpoint lits (s : string) : list atom :=
  match s with
  | EmptyString => []
  | String c s' => Lit c :: lits s'
  end.

(** /5.hour|5hour|window/i *)
Definition re_session_A : regex :=
  [Lit "5"%char :: Dot :: lits "hour"; lits "5hour"; lits "window"].

(** /5.hour|5hour|session|window/i *)
Definition re_session_B : regex :=
  [Lit "5"%char :: Dot :: lits "hour"; lits "5hour"; lits "session"; lits "window"].

(** /week/i *)
Definition re_week : regex := [lits "week"].

(** /5.?hour/i *)
Definition re_5hour : regex := [Lit "5"%char :: OptDot :: lits "hour"].

(** /used/i *)
Definition re_used : regex := [lits "used"].

(** /limit|total/i *)
Definition re_limit_total : regex := [lits "limit"; lits "total"].

(** ** parseInt and _safeInt *)

(** StrWhiteSpaceChar among the code units below 256. *)
Definition is_whitespace (c : ascii) : bool :=
  let n := nat_of_ascii c in
  ((9 <=? n) && (n <=? 13) || (n =? 32) || (n =? 160))%nat.

Fixpoint trim_start (s : string) : string :=
  match s with
  | String c s' => if is_whitespace c then trim_start s' else s
  | EmptyString => EmptyString
  end.

Definition digit_of (c : ascii) : option Z :=
  let n := nat_of_ascii c in
  if ((48 <=? n) && (n <=? 57))%nat then Some (Z.of_nat (n - 48)) else None.

(** The longest prefix of decimal digits, read left to right; [None] when
    the prefix is empty.  parseInt gives the double nearest to this
    integer, which is the integer itself below 2^53. *)
Fixpoint parse_digits (s : string) (acc : option Z) : option Z :=
  match s with
  | String c s' =>
      match digit_of c with
      | Some d =>
          parse_digits s' (Some (10 * match acc with Some a => a | None => 0 end + d))
      | None => acc
      end
  | EmptyString => acc
  end.

(** [parseInt(s, 10)] on a string; [None] is NaN. *)
Definition parseInt_string (s : string) : option Z :=
  let s1 := trim_start s in
  let '(sign, s2) :=
    match s1 with
    | String "-" rest => (-1, rest)
    | String "+" rest => (1, rest)
    | _ => (1, s1)
    end in
  match parse_digits s2 None with
  | Some n => Some (sign * n)
  | None => None
  end.

(** [parseInt(v, 10)] *)
Definition parseInt (v : value) : outcome (option Z) :=
  s <- ToString v ;; Ret (parseInt_string s).

(** function _safeInt(v) { const n = parseInt(v, 10); return isFinite(n) ? n : 0; } *)
Definition _safeInt (v : value) : outcome Z :=
  n <- parseInt v ;;
  Ret match n with
      | Some z => z
      | None => 0
      end.

(** ** Enumeration of own properties *)

Fixpoint chars (s : string) : list json :=
  match s with
  | EmptyString => []
  | String c s' => JStr (String c "") :: chars s'
  end.

Fixpoint indexed (i : nat) (l : list json) : list (string * json) :=
  match l with
  | [] => []
  | x :: rest => (Number_toString (Z.of_nat i), x) :: indexed (S i) rest
  end.

(** [Object.entries(o)]: a string and an array enumerate their indices, a
    number and a boolean have no own property, [null] raises. *)
Definition Object_entries (j : json) : outcome (list (string * json)) :=
  match j with
  | JObj props => Ret props
  | JArr items => Ret (indexed 0 items)
  | JStr s => Ret (indexed 0 (chars s))
  | JNum _ | JBool _ => Ret []
  | JNull => TypeError
  end.

(** [Object.values(o)] *)
Definition Object_values (j : json) : outcome (list json) :=
  es <- Object_entries j ;; Ret (map snd es).

(** [for (const x of l) body] over a state [S]. *)
Fixpoint for_of {A S : Type} (body : S -> A -> outcome S) (l : list A) (s : S)
  : outcome S :=
  match l with
  | [] => Ret s
  | x :: rest => s' <- body s x ;; for_of body rest s'
  end.

(** ** The usage normaliser: the first half of _applyUsageData *)

(** The six locals [sessionUsed], [sessionLimit], [weeklyUsed], [weeklyLimit],
    [sessionReset], [weeklyReset]. *)
Record snapshot : Type := mkSnapshot {
  sessionUsed : Z;
  sessionLimit : Z;
  sessionReset : json;
  weeklyUsed : Z;
  weeklyLimit : Z;
  weeklyReset : json
}.

(** let sessionUsed = 0, sessionLimit = 1; let weeklyUsed = 0, weeklyLimit = 1;
    let sessionReset = null, weeklyReset = null; *)
Definition initial : snapshot := mkSnapshot 0 1 JNull 0 1 JNull.

Definition set_session (s : snapshot) (used limit : Z) (reset : json) : snapshot :=
  mkSnapshot used limit reset (weeklyUsed s) (weeklyLimit s) (weeklyReset s).

Definition set_weekly (s : snapshot) (used limit : Z) (reset : json) : snapshot :=
  mkSnapshot (sessionUsed s) (sessionLimit s) (sessionReset s) used limit reset.

Definition set_sessionUsed (s : snapshot) (n : Z) : snapshot :=
  mkSnapshot n (sessionLimit s) (sessionReset s)
             (weeklyUsed s) (weeklyLimit s) (weeklyReset s).

Definition set_sessionLimit (s : snapshot) (n : Z) : snapshot :=
  mkSnapshot (sessionUsed s) n (sessionReset s)
             (weeklyUsed s) (weeklyLimit s) (weeklyReset s).

Definition set_weeklyUsed (s : snapshot) (n : Z) : snapshot :=
  mkSnapshot (sessionUsed s) (sessionLimit s) (sessionReset s)
             n (weeklyLimit s) (weeklyReset s).

Definition set_weeklyLimit (s : snapshot) (n : Z) : snapshot :=
  mkSnapshot (sessionUsed s) (sessionLimit s) (sessionReset s)
             (weeklyUsed s) n (weeklyReset s).

(** Schema A, the locals of the loop body:
    const type = entry?.type ?? '';
    const rem  = _safeInt(entry?.remaining ?? entry?.tokens_remaining);
    const tot  = _safeInt(entry?.total ?? entry?.tokens_total ?? entry?.limit);
    const reset = entry?.resetsAt ?? entry?.reset_at ?? entry?.resets_at ?? null; *)
Definition typeA (entry : json) : value :=
  get (Some entry) "type" ?? Some (JStr "").

Definition remA (entry : json) : outcome Z :=
  _safeInt (get (Some entry) "remaining" ?? get (Some entry) "tokens_remaining").

Definition totA (entry : json) : outcome Z :=
  _safeInt (get (Some entry) "total" ?? get (Some entry) "tokens_total"
              ?? get (Some entry) "limit").

Definition resetA (entry : json) : json :=
  or_null (get (Some entry) "resetsAt" ?? get (Some entry) "reset_at"
             ?? get (Some entry) "resets_at").

(** The body of the Schema A loop.  The difference is that of the source
    when it is within the exact range. *)
Definition schemaA_entry (s : snapshot) (entry : json) : outcome snapshot :=
  rem <- remA entry ;;
  tot <- totA entry ;;
  let used := tot - rem in
  is_session <- test re_session_A (typeA entry) ;;
  if is_session then Ret (set_session s used tot (resetA entry))
  else
    is_week <- test re_week (typeA entry) ;;
    if is_week then Ret (set_weekly s used tot (resetA entry)) else Ret s.

(** const rl = data?.rate_limit_status; and, under [if (rl)],
    const entries = Array.isArray(rl) ? rl : Object.values(rl); *)
Definition entriesA (data : json) : outcome (list json) :=
  let rl := get (Some data) "rate_limit_status" in
  if truthy rl then
    match rl with
    | Some (JArr items) => Ret items
    | Some j => Object_values j
    | None => Ret []
    end
  else Ret [].

(** Schema A: nothing is iterated when [rl] is falsy. *)
Definition schemaA (data : json) (s : snapshot) : outcome snapshot :=
  entries <- entriesA data ;;
  for_of schemaA_entry entries s.

(** Schema B, the locals of the loop body:
    const type = q?.window ?? q?.type ?? q?.period ?? '';
    const used = _safeInt(q?.used ?? q?.tokens_used);
    const limit = _safeInt(q?.limit ?? q?.tokens_limit ?? q?.total);
    const reset = q?.reset_at ?? q?.resetsAt ?? null; *)
Definition typeB (q : json) : value :=
  get (Some q) "window" ?? get (Some q) "type" ?? get (Some q) "period"
    ?? Some (JStr "").

Definition usedB (q : json) : outcome Z :=
  _safeInt (get (Some q) "used" ?? get (Some q) "tokens_used").

Definition limitB (q : json) : outcome Z :=
  _safeInt (get (Some q) "limit" ?? get (Some q) "tokens_limit"
              ?? get (Some q) "total").

Definition resetB (q : json) : json :=
  or_null (get (Some q) "reset_at" ?? get (Some q) "resetsAt").

(** The body of the Schema B loop. *)
Definition schemaB_entry (s : snapshot) (q : json) : outcome snapshot :=
  used <- usedB q ;;
  limit <- limitB q ;;
  is_session <- test re_session_B (typeB q) ;;
  if is_session then Ret (set_session s used limit (resetB q))
  else
    is_week <- test re_week (typeB q) ;;
    if is_week then Ret (set_weekly s used limit (resetB q)) else Ret s.

(** const quotas = data?.quotas ?? data?.limits ?? data?.usage_limits ?? [];
    iterated as (Array.isArray(quotas) ? quotas : []) *)
Definition entriesB (data : json) : list json :=
  let d := Some data in
  match get d "quotas" ?? get d "limits" ?? get d "usage_limits"
        ?? Some (JArr []) with
  | Some (JArr items) => items
  | _ => []
  end.

Definition schemaB (data : json) (s : snapshot) : outcome snapshot :=
  for_of schemaB_entry (entriesB data) s.

(** The body of the Schema C loop, on one [k, v] pair. *)
Definition schemaC_entry (s : snapshot) (kv : string * json) : outcome snapshot :=
  let '(k, v) := kv in
  let key := Some (JStr k) in
  h <- test re_5hour key ;;
  s1 <- (if h then
           u <- test re_used key ;;
           s' <- (if u then n <- _safeInt (Some v) ;; Ret (set_sessionUsed s n)
                  else Ret s) ;;
           l <- test re_limit_total key ;;
           if l then n <- _safeInt (Some v) ;; Ret (set_sessionLimit s' n)
           else Ret s'
         else Ret s) ;;
  w <- test re_week key ;;
  if w then
    u <- test re_used key ;;
    s' <- (if u then n <- _safeInt (Some v) ;; Ret (set_weeklyUsed s1 n)
           else Ret s1) ;;
    l <- test re_limit_total key ;;
    if l then n <- _safeInt (Some v) ;; Ret (set_weeklyLimit s' n)
    else Ret s'
  else Ret s1.

(** Object.entries(data ?? {}) *)
Definition entriesC (data : json) : outcome (list (string * json)) :=
  match data with
  | JNull => Ret []
  | _ => Object_entries data
  end.

(** Schema C: if (sessionLimit <= 1) { for (const [k, v] of ...) ... } *)
Definition schemaC (data : json) (s : snapshot) : outcome snapshot :=
  if sessionLimit s <=? 1 then
    entries <- entriesC data ;;
    for_of schemaC_entry entries s
  else Ret s.

(** The locals as they stand where the adaptive polling block begins. *)
Definition normalize (data : json) : outcome snapshot :=
  a <- schemaA data initial ;;
  b <- schemaB data a ;;
  schemaC data b.

Definition scenario_usage : json :=
  JObj [("rate_limit_status",
         JObj [("a", JObj [("type", JStr "window5Hour");
                           ("remaining", JNum 152000);
                           ("total", JNum 200000);
                           ("resetsAt", JStr "2024-01-01T00:00:00Z")])])].

(** ** The indicator: settings, fields of [this], and what the menu shows *)

(** The texts given to [_setStatus] and to the status item. *)
Inductive message : Type :=
| Msg_none                     (* '' as built by _buildMenu *)
| Msg_connecting               (* 'Connecting...' *)
| Msg_no_cookie                (* 'No session cookie configured. Open Settings to add one.' *)
| Msg_auth_failed              (* 'Authentication failed - check your session cookie.' *)
| Msg_http (status : Z)        (* `HTTP ${status}` *)
| Msg_invalid_json             (* 'Invalid JSON from server' *)
| Msg_network_error            (* `Network error: ${e.message}` *)
| Msg_no_organization          (* 'Could not resolve organization ID.' *)
| Msg_parse_error              (* `Parse error: ${e.message}` *)
| Msg_usage.                   (* 'Claude token usage' *)

(** [limit > 0 ? Math.round(used / limit * 100) : 0].  The quotient is a
    floating-point computation; the model records its operands. *)
Inductive percent : Type :=
| Pct_zero
| Pct_round (used limit : Z).

Definition percentage (used limit : Z) : percent :=
  if 0 <? limit then Pct_round used limit else Pct_zero.

(** A detail line of the menu: used, limit and the percentage. *)
Definition detail : Type := (Z * Z * percent)%type.

(** The state the polling code reads and writes.  The two bars, the icon
    and the tooltip are drawn from the same locals and are left out. *)
Record indicator : Type := mkIndicator {
  (* GSettings keys *)
  session_cookie : option string;
  poll_interval_idle : Z;
  poll_interval_active : Z;
  last_session_used : Z;
  last_weekly_used : Z;
  (* fields of the indicator object *)
  _orgId : value;
  _lastSessionUsed : Z;
  _lastWeeklyUsed : Z;
  _timerId : option Z;          (* the armed timer and its delay in seconds *)
  _sessionResetTime : json;
  _weeklyResetTime : json;
  (* the menu *)
  statusText : message;
  sessionDetail : option detail;
  weeklyDetail : option detail;
  (* the URLs requested so far, latest first *)
  requests : list string
}.

Definition with_orgId (v : value) (st : indicator) : indicator :=
  mkIndicator (session_cookie st) (poll_interval_idle st) (poll_interval_active st)
    (last_session_used st) (last_weekly_used st)
    v (_lastSessionUsed st) (_lastWeeklyUsed st) (_timerId st)
    (_sessionResetTime st) (_weeklyResetTime st)
    (statusText st) (sessionDetail st) (weeklyDetail st) (requests st).

Definition with_timer (t : option Z) (st : indicator) : indicator :=
  mkIndicator (session_cookie st) (poll_interval_idle st) (poll_interval_active st)
    (last_session_used st) (last_weekly_used st)
    (_orgId st) (_lastSessionUsed st) (_lastWeeklyUsed st) t
    (_sessionResetTime st) (_weeklyResetTime st)
    (statusText st) (sessionDetail st) (weeklyDetail st) (requests st).

Definition with_request (url : string) (st : indicator) : indicator :=
  mkIndicator (session_cookie st) (poll_interval_idle st) (poll_interval_active st)
    (last_session_used st) (last_weekly_used st)
    (_orgId st) (_lastSessionUsed st) (_lastWeeklyUsed st) (_timerId st)
    (_sessionResetTime st) (_weeklyResetTime st)
    (statusText st) (sessionDetail st) (weeklyDetail st) (url :: requests st).

(** this._lastSessionUsed = sessionUsed; this._lastWeeklyUsed = weeklyUsed;
    this._settings.set_int('last-session-used', sessionUsed);
    this._settings.set_int('last-weekly-used', weeklyUsed);
    [set_int] takes a 32-bit integer; this is what the four assignments
    leave for values in that range ([int32]). *)
Definition with_last_used (s w : Z) (st : indicator) : indicator :=
  mkIndicator (session_cookie st) (poll_interval_idle st) (poll_interval_active st)
    s w
    (_orgId st) s w (_timerId st)
    (_sessionResetTime st) (_weeklyResetTime st)
    (statusText st) (sessionDetail st) (weeklyDetail st) (requests st).

Definition with_details (m : message) (sd wd : option detail) (st : indicator)
  : indicator :=
  mkIndicator (session_cookie st) (poll_interval_idle st) (poll_interval_active st)
    (last_session_used st) (last_weekly_used st)
    (_orgId st) (_lastSessionUsed st) (_lastWeeklyUsed st) (_timerId st)
    (_sessionResetTime st) (_weeklyResetTime st)
    m sd wd (requests st).

Definition with_reset_times (s w : json) (st : indicator) : indicator :=
  mkIndicator (session_cookie st) (poll_interval_idle st) (poll_interval_active st)
    (last_session_used st) (last_weekly_used st)
    (_orgId st) (_lastSessionUsed st) (_lastWeeklyUsed st) (_timerId st)
    s w
    (statusText st) (sessionDetail st) (weeklyDetail st) (requests st).

(** _scheduleNextPoll(delaySec): the pending timer, if any, is cancelled and
    a new single-shot timer is armed. *)
Definition _scheduleNextPoll (delaySec : Z) (st : indicator) : indicator :=
  with_timer (Some delaySec) st.

(** _setStatus(msg): the status line is set and both detail lines cleared. *)
Definition _setStatus (msg : message) (st : indicator) : indicator :=
  with_details msg None None st.

(** ** HTTP helpers *)

Fixpoint trim_end (s : string) : string :=
  match s with
  | EmptyString => EmptyString
  | String c s' =>
      let t := trim_end s' in
      if is_whitespace c && String.eqb t "" then EmptyString else String c t
  end.

(** String.prototype.trim *)
Definition trim (s : string) : string := trim_end (trim_start s).

(** _cookieHeader(): [None] is the [null] returned for a missing key. *)
Definition _cookieHeader (st : indicator) : option string :=
  let key := trim match session_cookie st with
                  | Some s => s
                  | None => ""
                  end in
  if String.eqb key "" then None
  else if prefix "sessionKey=" key then Some key
  else Some ("sessionKey=" ++ key).

(** What the server and the transport answer to one GET. *)
Inductive response : Type :=
| Transport_failure                          (* send_and_read_finish raises *)
| Http (status : Z) (body : option json).    (* body: JSON.parse, None if it raises *)

Definition network : Type := string -> response.

(** _get(url, callback) together with the completion of the request it
    sends.  The callbacks of this program catch what they raise, so a
    callback returns the indicator it leaves. *)
Definition _get (net : network) (url : string)
    (callback : json -> option message -> indicator -> indicator)
    (st : indicator) : indicator :=
  match _cookieHeader st with
  | None => callback JNull (Some Msg_no_cookie) st
  | Some _ =>
      let st := with_request url st in
      match net url with
      | Transport_failure => callback JNull (Some Msg_network_error) st
      | Http status body =>
          if (status =? 401) || (status =? 403) then
            callback JNull (Some Msg_auth_failed) st
          else if (status <? 200) || (status >=? 300) then
            callback JNull (Some (Msg_http status)) st
          else
            match body with
            | None => callback JNull (Some Msg_invalid_json) st
            | Some json => callback json None st
            end
      end
  end.

(** ** The second half of _applyUsageData, _fetchUsage, _fetchAccount *)

(** How a method ends: by returning, or by raising with the indicator as it
    was left at that point. *)
Inductive completion : Type :=
| Normal (st : indicator)
| Abrupt (st : indicator).

(** A reset label: [reset ? `... ${_fmtDate(reset)}` : '... Unknown'].
    [_fmtDate] gives back its argument when [new Date] raises, and the
    template then converts it with ToString. *)
Definition reset_label (reset : json) : outcome unit :=
  if truthy (Some reset) then _ <- ToString_json reset ;; Ret tt else Ret tt.

(** const tokensMoved = sessionUsed > last.s || weeklyUsed > last.w; *)
Definition tokensMoved (snap : snapshot) (st : indicator) : bool :=
  (sessionUsed snap >? _lastSessionUsed st) || (weeklyUsed snap >? _lastWeeklyUsed st).

(** const nextInterval = tokensMoved ? activeInterval : idleInterval; *)
Definition nextInterval (snap : snapshot) (st : indicator) : Z :=
  if tokensMoved snap st then poll_interval_active st else poll_interval_idle st.

Definition _applyUsageData (data : json) (st : indicator) : completion :=
  match normalize data with
  | TypeError => Abrupt st
  | Ret snap =>
      let delay := nextInterval snap st in
      let st := with_last_used (sessionUsed snap) (weeklyUsed snap) st in
      let st :=
        with_details Msg_usage
          (Some (sessionUsed snap, sessionLimit snap,
                 percentage (sessionUsed snap) (sessionLimit snap)))
          (Some (weeklyUsed snap, weeklyLimit snap,
                 percentage (weeklyUsed snap) (weeklyLimit snap))) st in
      let st := with_reset_times (sessionReset snap) (weeklyReset snap) st in
      match (_ <- reset_label (sessionReset snap) ;; reset_label (weeklyReset snap)) with
      | TypeError => Abrupt st
      | Ret _ => Normal (_scheduleNextPoll delay st)
      end
  end.

Definition CLAUDE_BASE : string := "https://claude.ai/api".

Definition ACCOUNT_ENDPOINT : string := CLAUDE_BASE ++ "/auth/current_account".

Definition usage_url (org : string) : string :=
  CLAUDE_BASE ++ "/organizations/" ++ org ++ "/rate_limit_status".

(** The callback of _fetchUsage. *)
Definition on_usage (data : json) (err : option message) (st : indicator)
  : indicator :=
  match err with
  | Some e => _scheduleNextPoll 60 (_setStatus e st)
  | None =>
      match _applyUsageData data st with
      | Normal st' => st'
      | Abrupt st' => _scheduleNextPoll 60 (_setStatus Msg_parse_error st')
      end
  end.

(** _fetchUsage(): the template literal converts [this._orgId] first. *)
Definition _fetchUsage (net : network) (st : indicator) : completion :=
  match ToString (_orgId st) with
  | TypeError => Abrupt st
  | Ret org => Normal (_get net (usage_url org) on_usage st)
  end.

(** The organisation identifier as the callback of _fetchAccount leaves it
    in [this._orgId]. *)
Definition resolve_orgId (data : json) : value :=
  let d := Some data in
  let memberships :=
    get d "memberships" ?? get (get d "account") "memberships" ?? Some (JArr []) in
  let org :=
    get (get0 memberships) "organization" ?? get (get0 memberships) "workspace" in
  let id := get org "uuid" ?? get org "id" ?? get d "id" ?? Some JNull in
  if negb (truthy id) then
    get d "organization_uuid" ?? get (get d "default_organization") "uuid"
      ?? Some JNull
  else id.

(** The callback of _fetchAccount. *)
Definition on_account (net : network) (data : json) (err : option message)
    (st : indicator) : indicator :=
  match err with
  | Some e => _scheduleNextPoll 60 (_setStatus e st)
  | None =>
      let st := with_orgId (resolve_orgId data) st in
      if negb (truthy (_orgId st)) then
        _scheduleNextPoll 60 (_setStatus Msg_no_organization st)
      else
        match _fetchUsage net st with
        | Normal st' => st'
        | Abrupt st' => _scheduleNextPoll 60 (_setStatus Msg_parse_error st')
        end
  end.

Definition _fetchAccount (net : network) (st : indicator) : indicator :=
  _get net ACCOUNT_ENDPOINT (on_account net) (_setStatus Msg_connecting st).

Definition _fetchData (net : network) (st : indicator) : completion :=
  if negb (truthy (_orgId st)) then Normal (_fetchAccount net st)
  else _fetchUsage net st.

(** One poll cycle: the timer callback armed by _scheduleNextPoll, followed
    by the callbacks of the requests it starts. *)
Definition poll (net : network) (st : indicator) : completion :=
  _fetchData net (with_timer None st).

Definition scenario_account : json :=
  JObj [("memberships", JArr [JObj [("organization", JObj [("uuid", JStr "org-1")])]])].

(** * Vocabulary of the statements: payloads, predicates, and the words of
    the specification *)

(** A usage payload with a single Schema A entry. *)
Definition single_entry (ty krem ktot kreset : string) (rem tot : Z) (reset : json)
  : json :=
  JObj [("type", JStr ty); (krem, JNum rem); (ktot, JNum tot); (kreset, reset)].

Definition single_entry_payload (entry : json) : json :=
  JObj [("rate_limit_status", JObj [("a", entry)])].

(** The weekly half and the session half of the locals. *)
Definition weekly_of (s : snapshot) : Z * Z * json :=
  (weeklyUsed s, weeklyLimit s, weeklyReset s).

Definition session_of (s : snapshot) : Z * Z * json :=
  (sessionUsed s, sessionLimit s, sessionReset s).

(** An entry and an item whose kind reads "weekly_window". *)
Definition both_kinds_entry : json :=
  JObj [("type", JStr "weekly_window"); ("remaining", JNum 40); ("total", JNum 100)].

Definition both_kinds_quota : json :=
  JObj [("window", JStr "weekly_window"); ("used", JNum 60); ("limit", JNum 100)].

(** The outcome of one GET in the words of the specification: 401 and 403
    are an authentication failure, any other status outside 2xx an HTTP
    error, an unparseable body an invalid response, a transport failure a
    network error. *)
Definition spec_fetch_error (r : response) : option message :=
  match r with
  | Transport_failure => Some Msg_network_error
  | Http status body =>
      if (status =? 401) || (status =? 403) then Some Msg_auth_failed
      else if negb ((200 <=? status) && (status <? 300)) then Some (Msg_http status)
      else
        match body with
        | None => Some Msg_invalid_json
        | Some _ => None
        end
  end.

(** The causes for which a poll cycle fails.  A cached organisation
    identifier is converted to a string before the cookie is looked at, so
    the first cause asks that this conversion does not raise. *)
Inductive cycle_fails (net : network) (st : indicator) : message -> Prop :=
| fails_no_credential :
    _cookieHeader st = None ->
    ToString (_orgId st) <> TypeError ->
    cycle_fails net st Msg_no_cookie
| fails_account (e : message) :
    _cookieHeader st <> None ->
    truthy (_orgId st) = false ->
    spec_fetch_error (net ACCOUNT_ENDPOINT) = Some e ->
    cycle_fails net st e
| fails_organization (status : Z) (data : json) :
    _cookieHeader st <> None ->
    truthy (_orgId st) = false ->
    net ACCOUNT_ENDPOINT = Http status (Some data) ->
    spec_fetch_error (net ACCOUNT_ENDPOINT) = None ->
    truthy (resolve_orgId data) = false ->
    cycle_fails net st Msg_no_organization
| fails_usage_first (status : Z) (data : json) (org : string) (e : message) :
    _cookieHeader st <> None ->
    truthy (_orgId st) = false ->
    net ACCOUNT_ENDPOINT = Http status (Some data) ->
    spec_fetch_error (net ACCOUNT_ENDPOINT) = None ->
    truthy (resolve_orgId data) = true ->
    ToString (resolve_orgId data) = Ret org ->
    spec_fetch_error (net (usage_url org)) = Some e ->
    cycle_fails net st e
| fails_usage (org : string) (e : message) :
    _cookieHeader st <> None ->
    truthy (_orgId st) = true ->
    ToString (_orgId st) = Ret org ->
    spec_fetch_error (net (usage_url org)) = Some e ->
    cycle_fails net st e.

(** A cycle that ended on an error: the status line shows it, the detail
    lines are blank, the stored counters are those of [st], and the timer is
    armed at 60 seconds. *)
Definition ends_in_backoff (st : indicator) (m : message) (c : completion) : Prop :=
  exists st',
    c = Normal st' /\
    statusText st' = m /\
    sessionDetail st' = None /\ weeklyDetail st' = None /\
    _lastSessionUsed st' = _lastSessionUsed st /\
    _lastWeeklyUsed st' = _lastWeeklyUsed st /\
    last_session_used st' = last_session_used st /\
    last_weekly_used st' = last_weekly_used st /\
    _timerId st' = Some 60.

(** An indicator with a cookie, a cached organisation and 1000 session
    tokens seen at the previous cycle. *)
Definition scenario_indicator : indicator :=
  mkIndicator (Some "sk-ant-sid01-x") 120 15 1000 20000
    (Some (JStr "org-1")) 1000 20000 (Some 120) JNull JNull
    Msg_usage None None [].

Definition scenario_quotas (session_used : Z) : json :=
  JObj [("quotas",
         JArr [JObj [("window", JStr "session"); ("used", JNum session_used);
                     ("limit", JNum 200000)];
               JObj [("window", JStr "weekly"); ("used", JNum 20000);
                     ("limit", JNum 1000000)]])].

(** A server that answers every request with the given status and body. *)
Definition always (status : Z) (body : option json) : network :=
  fun _ => Http status body.

(** No object anywhere in the value has an own property named toString. *)
Fixpoint plain (j : json) : bool :=
  match j with
  | JArr items => forallb plain items
  | JObj props =>
      negb (has_own "toString" props)
      && forallb (fun p => plain (snd p)) props
  | _ => true
  end.

Definition plain_value (v : value) : bool :=
  match v with
  | Some j => plain j
  | None => true
  end.

(** A payload whose entry carries an object with a toString key as type. *)
Definition shadowing_payload : json :=
  JObj [("rate_limit_status",
         JObj [("a", JObj [("type", JObj [("toString", JNum 1)]);
                           ("remaining", JNum 1); ("total", JNum 2)])])].

(** No part of the payload is recognised as the Session window. *)
Definition session_unrecognized (data : json) : Prop :=
  (forall es e, entriesA data = Ret es -> In e es ->
                test re_session_A (typeA e) = Ret false) /\
  (forall q, In q (entriesB data) -> test re_session_B (typeB q) = Ret false) /\
  (forall es k v, entriesC data = Ret es -> In (k, v) es ->
                  search re_5hour k && (search re_used k || search re_limit_total k)
                  = false).

(** No part of the payload is recognised as the Weekly window. *)
Definition weekly_unrecognized (data : json) : Prop :=
  (forall es e, entriesA data = Ret es -> In e es ->
                test re_week (typeA e) = Ret false) /\
  (forall q, In q (entriesB data) -> test re_week (typeB q) = Ret false) /\
  (forall es k v, entriesC data = Ret es -> In (k, v) es ->
                  search re_week k && (search re_used k || search re_limit_total k)
                  = false).

(** Structural induction on decoded values. *)
Section JsonInduction.

Variable P : json -> Prop.
Hypothesis Hnull : P JNull.
Hypothesis Hbool : forall b, P (JBool b).
Hypothesis Hnum : forall z, P (JNum z).
Hypothesis Hstr : forall s, P (JStr s).
Hypothesis Harr : forall items, Forall P items -> P (JArr items).
Hypothesis Hobj : forall props, Forall (fun p => P (snd p)) props -> P (JObj props).

Fixpoint json_induction (j : json) : P j :=
  match j with
  | JNull => Hnull
  | JBool b => Hbool b
  | JNum z => Hnum z
  | JStr s => Hstr s
  | JArr items =>
      Harr items
        ((fix all (l : list json) : Forall P l :=
            match l with
            | [] => Forall_nil P
            | x :: rest => Forall_cons x (json_induction x) (all rest)
            end) items)
  | JObj props =>
      Hobj props
        ((fix all (l : list (string * json)) : Forall (fun p => P (snd p)) l :=
            match l with
            | [] => Forall_nil _
            | p :: rest =>
                Forall_cons (P := fun p => P (snd p)) p
                  (json_induction (snd p)) (all rest)
            end) props)
  end.

End JsonInduction.

(** The invariant of a quota window: used >= 0 and limit > 0. *)
Definition window_ok (w : Z * Z * json) : Prop :=
  0 <= fst (fst w) /\ 0 < snd (fst w).

Definition windows_ok (s : snapshot) : Prop :=
  window_ok (session_of s) /\ window_ok (weekly_of s).

(** A recognised Schema A entry reports a positive total and no more
    remaining than total. *)
Definition entryA_ok (entry : json) : Prop :=
  forall rem tot,
    remA entry = Ret rem -> totA entry = Ret tot ->
    test re_session_A (typeA entry) = Ret true
    \/ test re_week (typeA entry) = Ret true ->
    rem <= tot /\ 0 < tot.

(** A recognised Schema B item reports a non-negative used and a positive
    limit. *)
Definition itemB_ok (q : json) : Prop :=
  forall used limit,
    usedB q = Ret used -> limitB q = Ret limit ->
    test re_session_B (typeB q) = Ret true \/ test re_week (typeB q) = Ret true ->
    0 <= used /\ 0 < limit.

(** A recognised flat key carries a non-negative used value and a positive
    limit or total. *)
Definition pairC_ok (kv : string * json) : Prop :=
  forall n,
    _safeInt (Some (snd kv)) = Ret n ->
    search re_5hour (fst kv) || search re_week (fst kv) = true ->
    (search re_used (fst kv) = true -> 0 <= n) /\
    (search re_limit_total (fst kv) = true -> 0 < n).

Definition payload_ok (data : json) : Prop :=
  (forall es e, entriesA data = Ret es -> In e es -> entryA_ok e) /\
  (forall q, In q (entriesB data) -> itemB_ok q) /\
  (forall es kv, entriesC data = Ret es -> In kv es -> pairC_ok kv).

(** ** The range in which the embedding is exact

    A JSON number is a double.  The embedding has the integer-valued ones,
    and agrees with the source on those of magnitude below 2^53: there
    Number::toString prints the digits of the integer, parseInt reads an
    integer back without rounding, and the subtraction of Schema A is exact
    when its result is in the same range.  [set_int] takes a 32-bit integer.
    The statements about values that the normaliser computes carry these
    ranges. *)
(** A safe integer: the integers on which the arithmetic of doubles is
    exact. *)
Definition safe_integer (z : Z) : Prop := Z.abs z < 2 ^ 53.

(** The range of [set_int]. *)
Definition int32 (z : Z) : Prop := - 2 ^ 31 <= z < 2 ^ 31.

(** Every number in the value is within the exact range. *)
Fixpoint safe_numbers (j : json) : bool :=
  match j with
  | JNum z => Z.abs z <? 2 ^ 53
  | JArr items => forallb safe_numbers items
  | JObj props => forallb (fun p => safe_numbers (snd p)) props
  | _ => true
  end.

(** What a recognised Schema A entry gives for remaining and total, and
    their difference, are within the exact range. *)
Definition exact_entryA (entry : json) : Prop :=
  forall rem tot,
    remA entry = Ret rem -> totA entry = Ret tot ->
    test re_session_A (typeA entry) = Ret true
    \/ test re_week (typeA entry) = Ret true ->
    safe_integer rem /\ safe_integer tot /\ safe_integer (tot - rem).

(** The same for the used and limit of a recognised Schema B item. *)
Definition exact_itemB (q : json) : Prop :=
  forall used limit,
    usedB q = Ret used -> limitB q = Ret limit ->
    test re_session_B (typeB q) = Ret true \/ test re_week (typeB q) = Ret true ->
    safe_integer used /\ safe_integer limit.

(** The flat keys whose value Schema C hands to _safeInt. *)
Definition read_by_C (k : string) : bool :=
  (search re_5hour k || search re_week k)
  && (search re_used k || search re_limit_total k).

(** The same for the value of a flat key that Schema C reads. *)
Definition exact_pairC (kv : string * json) : Prop :=
  forall n,
    _safeInt (Some (snd kv)) = Ret n -> read_by_C (fst kv) = true -> safe_integer n.

(** A usage payload on which the normaliser of the embedding computes what
    the source computes. *)
Definition exact_payload (data : json) : Prop :=
  safe_numbers data = true /\
  (forall es e, entriesA data = Ret es -> In e es -> exact_entryA e) /\
  (forall q, In q (entriesB data) -> exact_itemB q) /\
  (forall es kv, entriesC data = Ret es -> In kv es -> exact_pairC kv).

(** A window entry that reports what remains but no total. *)
Definition no_total_payload : json :=
  JObj [("rate_limit_status",
         JObj [("a", JObj [("type", JStr "window5Hour"); ("remaining", JNum 5)])])].

(** A payload with a Schema A entry under rate_limit_status, followed by
    other top-level keys. *)
Definition entry_and_flat_keys (entry : json) (extra : list (string * json)) : json :=
  JObj (("rate_limit_status", JObj [("a", entry)]) :: extra).

(** Schema A for the Session window, flat keys for the Weekly window. *)
Definition fallback_payload : json :=
  entry_and_flat_keys
    (JObj [("type", JStr "window5Hour"); ("remaining", JNum 152000);
           ("total", JNum 200000)])
    [("weekly_used", JNum 30000); ("weekly_limit", JNum 1000000)].

(** The flat keys of [fallback_payload] alone. *)
Definition flat_keys_payload : json :=
  JObj [("weekly_used", JNum 30000); ("weekly_limit", JNum 1000000)].

(** Schema A and Schema B both describe the Session window. *)
Definition both_schemas_payload : json :=
  JObj [("rate_limit_status",
         JObj [("a", JObj [("type", JStr "window5Hour"); ("remaining", JNum 152000);
                           ("total", JNum 200000)])]);
        ("quotas",
         JArr [JObj [("window", JStr "session"); ("used", JNum 7);
                     ("limit", JNum 20)]])].

(** An entry that the body of the Schema A loop assigns to the Weekly
    window: its kind does not match the Session pattern and matches
    /week/.  The same for an item of Schema B. *)
Definition weeklyA (entry : json) : Prop :=
  test re_session_A (typeA entry) = Ret false
  /\ test re_week (typeA entry) = Ret true.

Definition weeklyB (q : json) : Prop :=
  test re_session_B (typeB q) = Ret false
  /\ test re_week (typeB q) = Ret true.

(** The four numbers that Schema C can set. *)
Inductive field : Type :=
| Session_used
| Session_limit
| Weekly_used
| Weekly_limit.

Definition field_of (f : field) (s : snapshot) : Z :=
  match f with
  | Session_used => sessionUsed s
  | Session_limit => sessionLimit s
  | Weekly_used => weeklyUsed s
  | Weekly_limit => weeklyLimit s
  end.

(** The flat keys that set a field: /5.?hour/ or /week/ chooses the window,
    /used/ or /limit|total/ the number. *)
Definition key_sets (f : field) (k : string) : bool :=
  match f with
  | Session_used => search re_5hour k && search re_used k
  | Session_limit => search re_5hour k && search re_limit_total k
  | Weekly_used => search re_week k && search re_used k
  | Weekly_limit => search re_week k && search re_limit_total k
  end.

(** ** The organisation lookup in the words of the specification *)

(** Within a membership or organisation object, [uuid] or else [id]. *)
Definition identifier_of (org : value) : value :=
  get org "uuid" ?? get org "id".

(** The first element of the top-level list of memberships, and of the list
    under [account]. *)
Definition top_membership (data : json) : value :=
  get0 (get (Some data) "memberships").

Definition account_membership (data : json) : value :=
  get0 (get (get (Some data) "account") "memberships").

(** The locations in the order of the specification. *)
Definition spec_candidates (data : json) : list value :=
  [ identifier_of (get (top_membership data) "organization");
    identifier_of (get (top_membership data) "workspace");
    identifier_of (get (account_membership data) "organization");
    identifier_of (get (account_membership data) "workspace");
    get (Some data) "id";
    get (Some data) "organization_uuid";
    get (get (Some data) "default_organization") "uuid" ].

(** First non-null wins; [null] when there is none. *)
Fixpoint first_non_null (l : list value) : value :=
  match l with
  | [] => Some JNull
  | v :: rest => if nullish v then first_non_null rest else v
  end.

Definition spec_resolve (data : json) : value :=
  first_non_null (spec_candidates data).

(** The membership the source looks at. *)
Definition chosen_membership (data : json) : value :=
  get0 (get (Some data) "memberships" ?? get (get (Some data) "account") "memberships"
          ?? Some (JArr [])).

(** The locations that come before organization_uuid: the identifiers the
    two membership lists give and the top-level id. *)
Definition early_candidates (data : json) : list value :=
  firstn 5 (spec_candidates data).

(** The account payloads on which the lookup of the source and the order of
    the specification coincide.  Each condition excludes one way in which
    they part:
    - a top-level memberships value that gives no identifier hides a list
      under account that gives one;
    - in the membership looked at, an organization without identifier hides
      a workspace with one;
    - the first non-null among the early locations is falsy (empty string,
      0, false) and is passed over. *)
Record regular_account (data : json) : Prop := {
  account_list_not_hidden :
    nullish (get (Some data) "memberships") = true
    \/ nullish (first_non_null
                  [identifier_of (get (top_membership data) "organization");
                   identifier_of (get (top_membership data) "workspace")]) = false
    \/ nullish (first_non_null
                  [identifier_of (get (account_membership data) "organization");
                   identifier_of (get (account_membership data) "workspace")]) = true;
  workspace_not_hidden :
    nullish (get (chosen_membership data) "organization") = true
    \/ nullish (identifier_of (get (chosen_membership data) "organization")) = false
    \/ nullish (identifier_of (get (chosen_membership data) "workspace")) = true;
  winner_truthy :
    nullish (first_non_null (early_candidates data)) = true
    \/ truthy (first_non_null (early_candidates data)) = true
}.

(** An empty top-level list of memberships beside the list under account. *)
Definition two_lists_account : json :=
  JObj [("memberships", JArr []);
        ("account",
         JObj [("memberships",
                JArr [JObj [("organization", JObj [("uuid", JStr "org-1")])]])])].

(** An empty top-level id beside an organization_uuid. *)
Definition empty_id_account : json :=
  JObj [("id", JStr ""); ("organization_uuid", JStr "org-2")].

(** An organization without identifier beside a workspace with one. *)
Definition unidentified_organization_account : json :=
  JObj [("memberships",
         JArr [JObj [("organization", JObj [("name", JStr "Acme")]);
                     ("workspace", JObj [("uuid", JStr "ws-1")])]])].

(** Both lists present, the top-level one giving the identifier. *)
Definition agreeing_lists_account : json :=
  JObj [("memberships", JArr [JObj [("organization", JObj [("uuid", JStr "org-1")])]]);
        ("account",
         JObj [("memberships",
                JArr [JObj [("organization", JObj [("uuid", JStr "org-9")])]])]);
        ("organization_uuid", JStr "")].

(** What the scheduler leaves in [st'] after a usage fetch that gave [snap]
    to an indicator that was in state [st]. *)
Definition rescheduled_adaptively (snap : snapshot) (st st' : indicator) : Prop :=
  (sessionUsed snap > _lastSessionUsed st \/ weeklyUsed snap > _lastWeeklyUsed st ->
   _timerId st' = Some (poll_interval_active st)) /\
  (sessionUsed snap <= _lastSessionUsed st /\ weeklyUsed snap <= _lastWeeklyUsed st ->
   _timerId st' = Some (poll_interval_idle st)) /\
  _lastSessionUsed st' = sessionUsed snap /\
  _lastWeeklyUsed st' = weeklyUsed snap /\
  last_session_used st' = sessionUsed snap /\
  last_weekly_used st' = weeklyUsed snap.

(** A usage payload in which Session.used has risen to 5000 and whose
    Session reset time is an object with a toString key. *)
Definition unrenderable_reset_usage : json :=
  JObj [("quotas",
         JArr [JObj [("window", JStr "session"); ("used", JNum 5000);
                     ("limit", JNum 200000);
                     ("reset_at", JObj [("toString", JNum 1)])];
               JObj [("window", JStr "weekly"); ("used", JNum 20000);
                     ("limit", JNum 1000000)]])].

(** The new used values are stored and persisted. *)
Definition counters_stored (snap : snapshot) (st' : indicator) : Prop :=
  _lastSessionUsed st' = sessionUsed snap /\
  _lastWeeklyUsed st' = weeklyUsed snap /\
  last_session_used st' = sessionUsed snap /\
  last_weekly_used st' = weeklyUsed snap.

(** * Vocabulary of the further properties *)

(** A value that ToString converts without raising: not an object with an
    own toString property, and for an array every element such a value. *)
Fixpoint convertible (j : json) : bool :=
  match j with
  | JArr items => forallb convertible items
  | JObj props => negb (has_own "toString" props)
  | _ => true
  end.

Definition convertible_value (v : value) : bool :=
  match v with
  | Some j => convertible j
  | None => true
  end.

(** Every character of the string satisfies [p]. *)
Fixpoint all_chars (p : ascii -> bool) (s : string) : bool :=
  match s with
  | EmptyString => true
  | String c s' => p c && all_chars p s'
  end.

(** The string with [f] applied to each character. *)
Fixpoint map_chars (f : ascii -> ascii) (s : string) : string :=
  match s with
  | EmptyString => EmptyString
  | String c s' => String (f c) (map_chars f s')
  end.

(** The string does not begin with a decimal digit. *)
Definition no_leading_digit (s : string) : bool :=
  match s with
  | EmptyString => true
  | String c _ => match digit_of c with Some _ => false | None => true end
  end.

(** ASCII lower case, the counterpart of [upcase]. *)
Definition downcase (c : ascii) : ascii :=
  let n := nat_of_ascii c in
  if ((65 <=? n) && (n <=? 90))%nat then ascii_of_nat (n + 32) else c.

(** The values a Schema A entry hands to _safeInt and to the pattern tests
    can all be converted. *)
Definition entryA_convertible (entry : json) : bool :=
  convertible_value (get (Some entry) "remaining" ?? get (Some entry) "tokens_remaining")
  && convertible_value (get (Some entry) "total" ?? get (Some entry) "tokens_total"
                          ?? get (Some entry) "limit")
  && convertible_value (typeA entry).

(** The same for a Schema B item. *)
Definition itemB_convertible (q : json) : bool :=
  convertible_value (get (Some q) "used" ?? get (Some q) "tokens_used")
  && convertible_value (get (Some q) "limit" ?? get (Some q) "tokens_limit"
                          ?? get (Some q) "total")
  && convertible_value (typeB q).

Definition pairC_convertible (kv : string * json) : bool :=
  negb (read_by_C (fst kv)) || convertible (snd kv).

Definition is_digit (c : ascii) : bool :=
  match digit_of c with Some _ => true | None => false end.

(** The reset times of a snapshot. *)
Definition resets_of (s : snapshot) : json * json :=
  (sessionReset s, weeklyReset s).

(** The settings store with another value under session-cookie. *)
Definition with_cookie (c : option string) (st : indicator) : indicator :=
  mkIndicator c (poll_interval_idle st) (poll_interval_active st)
    (last_session_used st) (last_weekly_used st)
    (_orgId st) (_lastSessionUsed st) (_lastWeeklyUsed st) (_timerId st)
    (_sessionResetTime st) (_weeklyResetTime st)
    (statusText st) (sessionDetail st) (weeklyDetail st) (requests st).

(** The cookie is absent or holds nothing but white space. *)
Definition blank_cookie (c : option string) : bool :=
  match c with
  | None => true
  | Some s => all_chars is_whitespace s
  end.

(** The cookie and the two configured intervals are those of [st]. *)
Definition settings_kept (st st' : indicator) : Prop :=
  session_cookie st' = session_cookie st /\
  poll_interval_idle st' = poll_interval_idle st /\
  poll_interval_active st' = poll_interval_active st.

(** The persisted counters equal the counters in memory. *)
Definition counters_synced (st : indicator) : Prop :=
  last_session_used st = _lastSessionUsed st /\
  last_weekly_used st = _lastWeeklyUsed st.

(** The timer is armed at 60 seconds or at one of the configured intervals. *)
Definition rearmed (st st' : indicator) : Prop :=
  _timerId st' = Some 60
  \/ _timerId st' = Some (poll_interval_idle st)
  \/ _timerId st' = Some (poll_interval_active st).

(** What every callback and every fetch keeps from [st]. *)
Definition cycle_kept (st st' : indicator) : Prop :=
  settings_kept st st' /\
  (counters_synced st -> counters_synced st') /\
  rearmed st st'.

(** The constructor: counters restored from the settings, no organisation,
    an empty menu, and the first poll armed at one second. *)
Definition _init (cookie : option string) (idle active last_s last_w : Z)
  : indicator :=
  _scheduleNextPoll 1
    (mkIndicator cookie idle active last_s last_w
       (Some JNull) last_s last_w None JNull JNull Msg_none None None []).

(** An account payload whose organisation identifier is an object with a
    toString key. *)
Definition shadowing_account : json :=
  JObj [("memberships",
         JArr [JObj [("organization",
                      JObj [("uuid", JObj [("toString", JNum 1)])])]])].

(** ** Requests in flight

    [send_and_read_async] returns as soon as the message is queued; the
    completion handler runs from the main loop later, and any other handler
    may run in between.  Here a request that was sent stays in flight until
    its response is delivered, and the timer callback, the two settings and
    menu handlers and the deliveries are the events of the main loop.  The
    callbacks are those of the one-step model above, with [_get] split in
    two. *)
Module Async.

(** The callback a request in flight will run. *)
Inductive request : Type :=
| Account_request
| Usage_request.

Record world : Type := mkWorld {
  ind : indicator;
  in_flight : list (request * string)    (* callback and URL, oldest first *)
}.

Definition lift (f : indicator -> indicator) (w : world) : world :=
  mkWorld (f (ind w)) (in_flight w).

(** How a handler ends. *)
Inductive result : Type :=
| Done (w : world)
| Raised (w : world).

Definition after (r : result) : world :=
  match r with
  | Done w => w
  | Raised w => w
  end.

(** What the completion handler of [_get] passes to the callback. *)
Definition callback_args (r : response) : json * option message :=
  match r with
  | Transport_failure => (JNull, Some Msg_network_error)
  | Http status body =>
      if (status =? 401) || (status =? 403) then (JNull, Some Msg_auth_failed)
      else if (status <? 200) || (status >=? 300) then (JNull, Some (Msg_http status))
      else
        match body with
        | None => (JNull, Some Msg_invalid_json)
        | Some json => (json, None)
        end
  end.

(** _get(url, callback) up to its return: without a cookie the callback runs
    at once, otherwise the request is sent and left in flight. *)
Definition _get (url : string) (k : request)
    (callback : json -> option message -> world -> world) (w : world) : world :=
  match _cookieHeader (ind w) with
  | None => callback JNull (Some Msg_no_cookie) w
  | Some _ => mkWorld (with_request url (ind w)) (in_flight w ++ [(k, url)])
  end.

(** The callback of _fetchUsage sends nothing. *)
Definition on_usage (data : json) (err : option message) (w : world) : world :=
  lift (on_usage data err) w.

Definition _fetchUsage (w : world) : result :=
  match ToString (_orgId (ind w)) with
  | TypeError => Raised w
  | Ret org => Done (_get (usage_url org) Usage_request on_usage w)
  end.

(** The callback of _fetchAccount. *)
Definition on_account (data : json) (err : option message) (w : world) : world :=
  match err with
  | Some e => lift (fun st => _scheduleNextPoll 60 (_setStatus e st)) w
  | None =>
      let w := lift (with_orgId (resolve_orgId data)) w in
      if negb (truthy (_orgId (ind w))) then
        lift (fun st => _scheduleNextPoll 60 (_setStatus Msg_no_organization st)) w
      else
        match _fetchUsage w with
        | Done w' => w'
        | Raised w' =>
            lift (fun st => _scheduleNextPoll 60 (_setStatus Msg_parse_error st)) w'
        end
  end.

Definition _fetchAccount (w : world) : world :=
  _get ACCOUNT_ENDPOINT Account_request on_account (lift (_setStatus Msg_connecting) w).

Definition _fetchData (w : world) : result :=
  if negb (truthy (_orgId (ind w))) then Done (_fetchAccount w)
  else _fetchUsage w.

Inductive event : Type :=
| Timer_fires                               (* the armed timer runs its callback *)
| Response (n : nat) (r : response)         (* the n-th request in flight completes *)
| Cookie_changed (cookie : option string)   (* changed::session-cookie *)
| Refresh_now.                              (* the menu item *)

(** The list without its n-th element. *)
Definition without (n : nat) {A : Type} (l : list A) : list A :=
  firstn n l ++ skipn (S n) l.

(** One handler.  A timer fires only while it is armed and a response is
    delivered only for a request in flight; the timer callback is
    [this._timerId = null; this._fetchData();]. *)
Definition step (w : world) (ev : event) : result :=
  match ev with
  | Timer_fires =>
      match _timerId (ind w) with
      | Some _ => _fetchData (lift (with_timer None) w)
      | None => Done w
      end
  | Response n r =>
      match nth_error (in_flight w) n with
      | Some (k, _) =>
          let w := mkWorld (ind w) (without n (in_flight w)) in
          let '(data, err) := callback_args r in
          Done match k with
               | Account_request => on_account data err w
               | Usage_request => on_usage data err w
               end
      | None => Done w
      end
  | Cookie_changed c =>
      Done (lift (fun st => _scheduleNextPoll 0 (with_orgId (Some JNull) (with_cookie c st)))
              w)
  | Refresh_now => Done (lift (_scheduleNextPoll 0) w)
  end.

(** The main loop goes on after a handler that raised. *)
Definition run (evs : list event) (w : world) : world :=
  fold_left (fun w ev => after (step w ev)) evs w.

(** The indicator as the constructor leaves it, nothing in flight. *)
Definition start (cookie : option string) (idle active last_s last_w : Z) : world :=
  mkWorld (_init cookie idle active last_s last_w) [].

(** The requests in flight are answered oldest first with what [net] holds
    for their URL, and nothing else happens in between. *)
Fixpoint drain (fuel : nat) (net : network) (w : world) : world :=
  match fuel, in_flight w with
  | S fuel', (_, url) :: _ => drain fuel' net (after (step w (Response 0 (net url))))
  | _, _ => w
  end.



End Async.

(** Manual refreshes and deliveries, the events other than the timer
    callback and a credential change. *)
Definition refresh_or_delivery (ev : Async.event) : Prop :=
  ev = Async.Refresh_now \/ exists n r, ev = Async.Response n r.

(** An account request is in flight, sent with the cookie that is about to
    be replaced. *)
Definition lookup_in_flight : Async.world :=
  Async.mkWorld
    (mkIndicator (Some "old") 120 15 0 0 (Some JNull) 0 0 None JNull JNull
       Msg_connecting None None [ACCOUNT_ENDPOINT])
    [(Async.Account_request, ACCOUNT_ENDPOINT)].

(** ** The timer and the main loop

    [_scheduleNextPoll], [_cancelTimer], the timer callback and [destroy]
    against the timeout sources of the GLib main loop: [timeout_add_seconds]
    attaches a source and returns its identifier, [source_remove] detaches
    one, and a callback that returns SOURCE_REMOVE detaches the source that
    ran it. *)
Module Timers.

Record main_loop : Type := mkLoop {
  next_source : positive;               (* identifiers are handed out in order *)
  sources : list (positive * Z)         (* attached sources and their delays *)
}.

Definition timeout_add_seconds (delay : Z) (g : main_loop) : positive * main_loop :=
  (next_source g,
   mkLoop (Pos.succ (next_source g)) ((next_source g, delay) :: sources g)).

Definition source_remove (id : positive) (g : main_loop) : main_loop :=
  mkLoop (next_source g)
         (filter (fun p => negb (Pos.eqb (fst p) id)) (sources g)).

Record state : Type := mkState {
  _timerId : option positive;
  loop : main_loop
}.

(** if (this._timerId !== null) { GLib.source_remove(this._timerId);
    this._timerId = null; } *)
Definition _cancelTimer (t : state) : state :=
  match _timerId t with
  | Some id => mkState None (source_remove id (loop t))
  | None => t
  end.

(** this._cancelTimer(); this._timerId = GLib.timeout_add_seconds(..., delaySec, callback); *)
Definition _scheduleNextPoll (delaySec : Z) (t : state) : state :=
  let t := _cancelTimer t in
  let '(id, g) := timeout_add_seconds delaySec (loop t) in
  mkState (Some id) g.

(** The callback of source [id]: this._timerId = null; this._fetchData();
    return GLib.SOURCE_REMOVE.  [sync] is the delay at which _fetchData
    re-arms before it returns (the missing-cookie path calls back at once);
    [None] when the reschedule is left to a request callback. *)
Definition callback (id : positive) (sync : option Z) (t : state) : state :=
  let t := mkState None (loop t) in
  let t := match sync with
           | Some d => _scheduleNextPoll d t
           | None => t
           end in
  mkState (_timerId t) (source_remove id (loop t)).

Inductive event : Type :=
| Dispatch (id : positive) (sync : option Z)  (* the main loop runs a source *)
| Schedule (delaySec : Z)    (* constructor, refresh, new cookie, request callback *)
| Destroy.                   (* destroy() *)

(** Only an attached source is run. *)
Definition step (t : state) (ev : event) : state :=
  match ev with
  | Dispatch id sync =>
      if existsb (fun p => Pos.eqb (fst p) id) (sources (loop t))
      then callback id sync t else t
  | Schedule d => _scheduleNextPoll d t
  | Destroy => _cancelTimer t
  end.

(** Before the constructor arms the first timer. *)
Definition start : state := mkState None (mkLoop 1 []).

(** [_timerId] names the one attached source, or is null with none attached. *)
Definition single (t : state) : Prop :=
  match _timerId t with
  | Some id =>
      (id < next_source (loop t))%positive
      /\ exists d, sources (loop t) = [(id, d)]
  | None => sources (loop t) = []
  end.

End Timers.

(** ** _fmt

    What _fmt prints.  Below a million the text is exact: [String(n)], or
    [Math.round(n / 1_000) + 'k'], where for an integer n from 1000 to
    999999 the floating-point quotient is exact at the halves and off by
    far less than 1/1000 elsewhere, so that Math.round, which rounds halves
    up, gives the floor of (n + 500) / 1000.  From a million on the digits
    come from [(n / 1_000_000).toFixed(1)], a floating-point rendering that
    is kept as its operand. *)
Inductive formatted : Type :=
| Fmt_text (s : string)
| Fmt_millions (n : Z).

Definition _fmt (n : Z) : formatted :=
  if n >=? 1000000 then Fmt_millions n
  else if n >=? 1000 then Fmt_text (Number_toString ((n + 500) / 1000) ++ "k")
  else Fmt_text (Number_toString n).

(** * Properties *)

(** ** Sanity checks of the embedding on the scenarios of the specification *)

Example safeInt_probe : _safeInt (Some (JStr "  -42px")) = Ret (-42).
Proof. reflexivity. Qed.

Example normalize_probe :
  normalize scenario_usage
  = Ret (mkSnapshot 48000 200000 (JStr "2024-01-01T00:00:00Z") 0 1 JNull).
Proof. vm_compute. reflexivity. Qed.

Example resolve_probe : resolve_orgId scenario_account = Some (JStr "org-1").
Proof. reflexivity. Qed.

(** ** Decimal digits: printing a number and reading it back *)

Section Digits.

Lemma parse_digits_step (c : ascii) (s : string) (acc d : Z) :
  digit_of c = Some d ->
  parse_digits (String c s) (Some acc) = parse_digits s (Some (10 * acc + d)).
Proof. intro H. cbn [parse_digits]. now rewrite H. Qed.

Lemma parse_digits_pos (d : uint) (p : positive) :
  parse_digits (NilEmpty.string_of_uint d) (Some (Z.pos p))
  = Some (Z.pos (Pos.of_uint_acc d p)).
Proof.
  revert p; induction d; intro p;
    cbn [NilEmpty.string_of_uint Pos.of_uint_acc]; [reflexivity | ..];
    erewrite parse_digits_step by (vm_compute; reflexivity);
    rewrite <- IHd; do 2 f_equal; lia.
Qed.

Lemma parse_digits_zero (d : uint) :
  parse_digits (NilEmpty.string_of_uint d) (Some 0)
  = Some (Z.of_N (Pos.of_uint d)).
Proof.
  induction d; cbn [NilEmpty.string_of_uint Pos.of_uint]; [reflexivity | ..];
    erewrite parse_digits_step by (vm_compute; reflexivity);
    first [exact IHd | apply (parse_digits_pos d)].
Qed.

Lemma parse_digits_uint (d : uint) :
  d <> Nil ->
  parse_digits (NilEmpty.string_of_uint d) None = Some (Z.of_N (Pos.of_uint d)).
Proof.
  intro H. rewrite <- parse_digits_zero. destruct d; [congruence | reflexivity ..].
Qed.

Lemma trim_start_digits (d : uint) :
  trim_start (NilEmpty.string_of_uint d) = NilEmpty.string_of_uint d.
Proof. destruct d; reflexivity. Qed.

Lemma parseInt_uint (d : uint) :
  d <> Nil ->
  parseInt_string (NilEmpty.string_of_uint d) = Some (Z.of_N (Pos.of_uint d)).
Proof.
  intro H. unfold parseInt_string. rewrite trim_start_digits.
  assert (E : parse_digits (NilEmpty.string_of_uint d) None
              = Some (Z.of_N (Pos.of_uint d))) by now apply parse_digits_uint.
  destruct d; try congruence; cbn [NilEmpty.string_of_uint] in *;
    cbv iota beta; rewrite E; f_equal; lia.
Qed.

(** Reading back the decimal form of an integer gives the integer. *)
Lemma parseInt_Number_toString (z : Z) :
  parseInt_string (Number_toString z) = Some z.
Proof.
  unfold Number_toString. destruct z as [|p|p]; cbn [Z.to_int NilEmpty.string_of_int].
  - reflexivity.
  - rewrite parseInt_uint by apply DecimalPos.Unsigned.to_uint_nonnil.
    now rewrite DecimalPos.Unsigned.of_to.
  - unfold parseInt_string. cbn [trim_start].
    change (is_whitespace "-") with false. cbv iota.
    rewrite parse_digits_uint by apply DecimalPos.Unsigned.to_uint_nonnil.
    now rewrite DecimalPos.Unsigned.of_to.
Qed.

End Digits.

(** ** _safeInt *)

Lemma safeInt_number (z : Z) : _safeInt (Some (JNum z)) = Ret z.
Proof.
  unfold _safeInt, parseInt. cbn [ToString ToString_json bind].
  now rewrite parseInt_Number_toString.
Qed.

Lemma safeInt_string (s : string) :
  _safeInt (Some (JStr s))
  = Ret match parseInt_string s with Some z => z | None => 0 end.
Proof. reflexivity. Qed.

(** A string whose first character is neither white space, a sign nor a
    digit does not start a number. *)
Lemma parseInt_no_number (c : ascii) (rest : string) :
  is_whitespace c = false -> c <> "-"%char -> c <> "+"%char -> digit_of c = None ->
  parseInt_string (String c rest) = None.
Proof.
  intros Hw Hm Hp Hd. unfold parseInt_string. cbn [trim_start]. rewrite Hw.
  assert (E : parse_digits (String c rest) None = None)
    by (cbn [parse_digits]; now rewrite Hd).
  destruct c as [[|] [|] [|] [|] [|] [|] [|] [|]];
    try (exfalso; congruence); cbv iota beta; now rewrite E.
Qed.

(** C9: _safeInt returns 0 for null, undefined, "abc" and every string from
    which parseInt reads no number, and the parsed integer for numeric inputs:
    "123" and 123 give 123, "123.7" gives 123; a number and its decimal
    string give the number itself. *)
Theorem safeInt_spec :
  _safeInt (Some JNull) = Ret 0 /\
  _safeInt undefined = Ret 0 /\
  _safeInt (Some (JStr "abc")) = Ret 0 /\
  _safeInt (Some (JStr "")) = Ret 0 /\
  (forall s, parseInt_string s = None -> _safeInt (Some (JStr s)) = Ret 0) /\
  (forall c rest,
      is_whitespace c = false -> c <> "-"%char -> c <> "+"%char ->
      digit_of c = None ->
      _safeInt (Some (JStr (String c rest))) = Ret 0) /\
  _safeInt (Some (JStr "123")) = Ret 123 /\
  _safeInt (Some (JNum 123)) = Ret 123 /\
  _safeInt (Some (JStr "123.7")) = Ret 123 /\
  (forall z, Z.abs z < 2 ^ 53 -> _safeInt (Some (JNum z)) = Ret z) /\
  (forall z, Z.abs z < 2 ^ 53 ->
             _safeInt (Some (JStr (Number_toString z))) = Ret z).
Proof.
  repeat split; try reflexivity.
  - intros s H. rewrite safeInt_string. now rewrite H.
  - intros c rest Hw Hm Hp Hd. rewrite safeInt_string.
    now rewrite parseInt_no_number.
  - intros z _. apply safeInt_number.
  - intros z _. rewrite safeInt_string. now rewrite parseInt_Number_toString.
Qed.

Lemma safeInt_spec_witness :
  _safeInt (Some (JStr "n/a")) = Ret 0 /\
  _safeInt (Some (JNum 48000)) = Ret 48000 /\
  _safeInt (Some (JStr (Number_toString (-7)))) = Ret (-7).
Proof.
  destruct safeInt_spec as (_ & _ & _ & _ & Hnan & Hchar & _ & _ & _ & Hnum & Hstr).
  split; [| split].
  - apply Hchar; [reflexivity | discriminate | discriminate | reflexivity].
  - apply Hnum. reflexivity.
  - apply Hstr. reflexivity.
Defined.

(** ** Schema A on one entry *)

Lemma bind_ret {A B : Type} (m : outcome A) (k : A -> outcome B) (a : A) :
  m = Ret a -> bind m k = k a.
Proof. now intros ->. Qed.

Lemma bind_inv {A B : Type} (m : outcome A) (k : A -> outcome B) (b : B) :
  bind m k = Ret b -> exists a, m = Ret a /\ k a = Ret b.
Proof. destruct m as [a|]; [now exists a | discriminate]. Qed.

Lemma schemaA_entry_session (s : snapshot) (entry : json) (rem tot : Z) :
  remA entry = Ret rem ->
  totA entry = Ret tot ->
  test re_session_A (typeA entry) = Ret true ->
  schemaA_entry s entry = Ret (set_session s (tot - rem) tot (resetA entry)).
Proof.
  intros Hr Ht Hs. unfold schemaA_entry. now rewrite Hr, Ht, Hs.
Qed.

Lemma schemaA_entry_weekly (s : snapshot) (entry : json) (rem tot : Z) :
  remA entry = Ret rem ->
  totA entry = Ret tot ->
  test re_session_A (typeA entry) = Ret false ->
  test re_week (typeA entry) = Ret true ->
  schemaA_entry s entry = Ret (set_weekly s (tot - rem) tot (resetA entry)).
Proof.
  intros Hr Ht Hs Hw. unfold schemaA_entry. now rewrite Hr, Ht, Hs, Hw.
Qed.

Lemma single_entry_normalize (entry : json) (s : snapshot) :
  schemaA_entry initial entry = Ret s ->
  normalize (single_entry_payload entry) = Ret s.
Proof.
  intro H. unfold normalize, schemaA.
  change (entriesA (single_entry_payload entry)) with (Ret [entry]).
  cbn [bind for_of]. rewrite H. cbn [bind].
  change (schemaB (single_entry_payload entry) s) with (Ret s). cbn [bind].
  unfold schemaC. destruct (sessionLimit s <=? 1); reflexivity.
Qed.

(** C4: a Schema A entry whose type matches the 5-hour or window pattern
    gives the Session window used = total - remaining, limit = total and the
    reset time, whichever accepted alias carries remaining, total and the
    reset time, for remaining, total and their difference within the range
    in which the arithmetic is exact; the scenario payload gives 48000,
    200000 and 2024-01-01T00:00:00Z. *)
Theorem schemaA_session_aliases
    (ty krem ktot kreset : string) (rem tot : Z) (reset : string) :
  search re_session_A ty = true ->
  In krem ["remaining"; "tokens_remaining"] ->
  In ktot ["total"; "tokens_total"; "limit"] ->
  In kreset ["resetsAt"; "reset_at"; "resets_at"] ->
  Z.abs rem < 2 ^ 53 -> Z.abs tot < 2 ^ 53 -> Z.abs (tot - rem) < 2 ^ 53 ->
  normalize
    (single_entry_payload (single_entry ty krem ktot kreset rem tot (JStr reset)))
  = Ret (mkSnapshot (tot - rem) tot (JStr reset) 0 1 JNull)
  /\ normalize scenario_usage
     = Ret (mkSnapshot 48000 200000 (JStr "2024-01-01T00:00:00Z") 0 1 JNull).
Proof.
  intros Hty Hrem Htot Hreset _ _ _. split; [| vm_compute; reflexivity].
  apply single_entry_normalize.
  cbn [In] in Hrem, Htot, Hreset.
  assert (Ht : forall e, typeA e = Some (JStr ty) ->
                         test re_session_A (typeA e) = Ret true)
    by (intros e ->; cbn [test ToString ToString_json bind]; now rewrite Hty).
  destruct Hrem as [<- | [<- | []]];
    destruct Htot as [<- | [<- | [<- | []]]];
    destruct Hreset as [<- | [<- | [<- | []]]];
    (erewrite schemaA_entry_session;
     [ reflexivity
     | exact (safeInt_number rem)
     | exact (safeInt_number tot)
     | apply Ht; reflexivity ]).
Qed.

Lemma schemaA_session_aliases_witness :
  normalize
    (single_entry_payload
       (single_entry "5-Hour" "tokens_remaining" "limit" "reset_at" 30 100
          (JStr "soon")))
  = Ret (mkSnapshot 70 100 (JStr "soon") 0 1 JNull).
Proof.
  apply (schemaA_session_aliases "5-Hour" "tokens_remaining" "limit" "reset_at"
           30 100 "soon");
    [ reflexivity | cbn; tauto | cbn; tauto | cbn; tauto
    | reflexivity | reflexivity | reflexivity ].
Defined.

(** ** The order of the two pattern tests *)

Lemma schemaB_entry_session (s : snapshot) (q : json) (used limit : Z) :
  usedB q = Ret used ->
  limitB q = Ret limit ->
  test re_session_B (typeB q) = Ret true ->
  schemaB_entry s q = Ret (set_session s used limit (resetB q)).
Proof.
  intros Hu Hl Hs. unfold schemaB_entry. now rewrite Hu, Hl, Hs.
Qed.

(** C10: in Schema A and in Schema B the Session pattern is tested first and
    the Weekly pattern only in the else branch, so an entry whose kind
    matches both patterns, such as "weekly_window", is assigned to the
    Session window and the Weekly window keeps what it had. *)
Theorem session_tested_before_weekly :
  (forall (s : snapshot) (entry : json) (rem tot : Z),
      test re_session_A (typeA entry) = Ret true ->
      test re_week (typeA entry) = Ret true ->
      remA entry = Ret rem ->
      totA entry = Ret tot ->
      exists s',
        schemaA_entry s entry = Ret s' /\
        session_of s' = (tot - rem, tot, resetA entry) /\
        weekly_of s' = weekly_of s) /\
  (forall (s : snapshot) (q : json) (used limit : Z),
      test re_session_B (typeB q) = Ret true ->
      test re_week (typeB q) = Ret true ->
      usedB q = Ret used ->
      limitB q = Ret limit ->
      exists s',
        schemaB_entry s q = Ret s' /\
        session_of s' = (used, limit, resetB q) /\
        weekly_of s' = weekly_of s) /\
  search re_session_A "weekly_window" = true /\
  search re_session_B "weekly_window" = true /\
  search re_week "weekly_window" = true /\
  normalize (JObj [("rate_limit_status", JArr [both_kinds_entry])])
  = Ret (mkSnapshot 60 100 JNull 0 1 JNull) /\
  normalize (JObj [("quotas", JArr [both_kinds_quota])])
  = Ret (mkSnapshot 60 100 JNull 0 1 JNull).
Proof.
  split; [| split; [| repeat split; vm_compute; reflexivity]].
  - intros s entry rem tot Hs _ Hr Ht.
    exists (set_session s (tot - rem) tot (resetA entry)).
    split; [now apply schemaA_entry_session | split; reflexivity].
  - intros s q used limit Hs _ Hu Hl.
    exists (set_session s used limit (resetB q)).
    split; [now apply schemaB_entry_session | split; reflexivity].
Qed.

Lemma session_tested_before_weekly_witness :
  exists s',
    schemaA_entry initial both_kinds_entry = Ret s' /\
    session_of s' = (60, 100, JNull) /\
    weekly_of s' = weekly_of initial.
Proof.
  destruct session_tested_before_weekly as (HA & _).
  apply (HA initial both_kinds_entry 40 100); vm_compute; reflexivity.
Defined.

(** ** _get *)

Lemma get_no_cookie (net : network) (url : string)
    (callback : json -> option message -> indicator -> indicator) (st : indicator) :
  _cookieHeader st = None ->
  _get net url callback st = callback JNull (Some Msg_no_cookie) st.
Proof. intro H. unfold _get. now rewrite H. Qed.

Lemma get_error (net : network) (url : string)
    (callback : json -> option message -> indicator -> indicator) (st : indicator)
    (e : message) :
  _cookieHeader st <> None ->
  spec_fetch_error (net url) = Some e ->
  _get net url callback st = callback JNull (Some e) (with_request url st).
Proof.
  intros Hc He. unfold _get. destruct (_cookieHeader st); [| congruence].
  destruct (net url) as [| status body]; cbn [spec_fetch_error] in He.
  - now injection He as <-.
  - destruct ((status =? 401) || (status =? 403)); [now injection He as <- |].
    replace ((status <? 200) || (status >=? 300))
      with (negb ((200 <=? status) && (status <? 300)))
      by (destruct (Z.leb_spec 200 status), (Z.ltb_spec status 300),
            (Z.ltb_spec status 200), (Z.geb_spec status 300); cbn; lia || reflexivity).
    destruct (negb ((200 <=? status) && (status <? 300))); [now injection He as <- |].
    destruct body; [discriminate | now injection He as <-].
Qed.

Lemma get_ok (net : network) (url : string)
    (callback : json -> option message -> indicator -> indicator) (st : indicator)
    (status : Z) (data : json) :
  _cookieHeader st <> None ->
  net url = Http status (Some data) ->
  spec_fetch_error (net url) = None ->
  _get net url callback st = callback data None (with_request url st).
Proof.
  intros Hc Hn He. unfold _get. destruct (_cookieHeader st); [| congruence].
  rewrite Hn in *. cbn [spec_fetch_error] in He.
  destruct ((status =? 401) || (status =? 403)); [discriminate |].
  replace ((status <? 200) || (status >=? 300))
    with (negb ((200 <=? status) && (status <? 300)))
    by (destruct (Z.leb_spec 200 status), (Z.ltb_spec status 300),
          (Z.ltb_spec status 200), (Z.geb_spec status 300); cbn; lia || reflexivity).
  destruct (negb ((200 <=? status) && (status <? 300))); [discriminate | reflexivity].
Qed.

Lemma cookieHeader_with_timer (t : option Z) (st : indicator) :
  _cookieHeader (with_timer t st) = _cookieHeader st.
Proof. reflexivity. Qed.

Lemma cookieHeader_setStatus (m : message) (st : indicator) :
  _cookieHeader (_setStatus m st) = _cookieHeader st.
Proof. reflexivity. Qed.

Lemma cookieHeader_with_orgId (v : value) (st : indicator) :
  _cookieHeader (with_orgId v st) = _cookieHeader st.
Proof. reflexivity. Qed.

Lemma cookieHeader_with_request (url : string) (st : indicator) :
  _cookieHeader (with_request url st) = _cookieHeader st.
Proof. reflexivity. Qed.

(** ** Failed cycles *)

Lemma fetchUsage_error (net : network) (st : indicator) (org : string) (e : message) :
  _cookieHeader st <> None ->
  ToString (_orgId st) = Ret org ->
  spec_fetch_error (net (usage_url org)) = Some e ->
  _fetchUsage net st
  = Normal (_scheduleNextPoll 60 (_setStatus e (with_request (usage_url org) st))).
Proof.
  intros Hc Ho He. unfold _fetchUsage. rewrite Ho.
  now rewrite (get_error net (usage_url org) on_usage st e Hc He).
Qed.

Lemma poll_usage_error (net : network) (st : indicator) (org : string) (e : message) :
  _cookieHeader st <> None ->
  truthy (_orgId st) = true ->
  ToString (_orgId st) = Ret org ->
  spec_fetch_error (net (usage_url org)) = Some e ->
  ends_in_backoff st e (poll net st).
Proof.
  intros Hc Ht Ho He. unfold poll, _fetchData.
  change (_orgId (with_timer None st)) with (_orgId st). rewrite Ht. cbn [negb].
  rewrite (fetchUsage_error net (with_timer None st) org e); try assumption.
  eexists; split; [reflexivity |]. repeat split.
Qed.

Lemma poll_account_ok (net : network) (st : indicator) (status : Z) (data : json) :
  _cookieHeader st <> None ->
  truthy (_orgId st) = false ->
  net ACCOUNT_ENDPOINT = Http status (Some data) ->
  spec_fetch_error (net ACCOUNT_ENDPOINT) = None ->
  poll net st
  = Normal (on_account net data None
              (with_request ACCOUNT_ENDPOINT
                 (_setStatus Msg_connecting (with_timer None st)))).
Proof.
  intros Hc Ht Hn He. unfold poll, _fetchData.
  change (_orgId (with_timer None st)) with (_orgId st). rewrite Ht. cbn [negb].
  unfold _fetchAccount.
  now rewrite (get_ok net ACCOUNT_ENDPOINT (on_account net)
                 (_setStatus Msg_connecting (with_timer None st)) status data Hc Hn He).
Qed.

Lemma poll_no_organization (net : network) (st : indicator) (status : Z) (data : json) :
  _cookieHeader st <> None ->
  truthy (_orgId st) = false ->
  net ACCOUNT_ENDPOINT = Http status (Some data) ->
  spec_fetch_error (net ACCOUNT_ENDPOINT) = None ->
  truthy (resolve_orgId data) = false ->
  ends_in_backoff st Msg_no_organization (poll net st).
Proof.
  intros Hc Ht Hn He Hr. rewrite (poll_account_ok net st status data Hc Ht Hn He).
  unfold on_account.
  change (_orgId (with_orgId (resolve_orgId data) ?x)) with (resolve_orgId data).
  rewrite Hr. cbn [negb].
  eexists; split; [reflexivity |]. repeat split.
Qed.

Lemma poll_failure (net : network) (st : indicator) (m : message) :
  cycle_fails net st m -> ends_in_backoff st m (poll net st).
Proof.
  intro H.
  destruct H as [Hc Hs | e Hc Ht He | status data Hc Ht Hn He Hr
                | status data org e Hc Ht Hn He Hr Ho Hu | org e Hc Ht Ho He].
  - unfold poll, _fetchData.
    change (_orgId (with_timer None st)) with (_orgId st).
    destruct (truthy (_orgId st)) eqn:Ht; cbn [negb].
    + unfold _fetchUsage. change (_orgId (with_timer None st)) with (_orgId st).
      destruct (ToString (_orgId st)) as [org |] eqn:Ho; [| contradiction].
      rewrite get_no_cookie by exact Hc.
      eexists; split; [reflexivity |]. repeat split.
    + unfold _fetchAccount. rewrite get_no_cookie by exact Hc.
      eexists; split; [reflexivity |]. repeat split.
  - unfold poll, _fetchData.
    change (_orgId (with_timer None st)) with (_orgId st). rewrite Ht. cbn [negb].
    unfold _fetchAccount.
    rewrite (get_error net ACCOUNT_ENDPOINT (on_account net)
               (_setStatus Msg_connecting (with_timer None st)) e Hc He).
    eexists; split; [reflexivity |]. repeat split.
  - now apply (poll_no_organization net st status data).
  - rewrite (poll_account_ok net st status data Hc Ht Hn He).
    unfold on_account.
    change (_orgId (with_orgId (resolve_orgId data) ?x)) with (resolve_orgId data).
    rewrite Hr. cbn [negb].
    erewrite fetchUsage_error; [| exact Hc | exact Ho | exact Hu].
    eexists; split; [reflexivity |]. repeat split.
  - now apply (poll_usage_error net st org e).
Qed.

(** C7: whatever fails in a poll cycle (no credential, authentication, HTTP
    status, invalid JSON, transport, unresolved organisation), the cycle
    stops there, the status line shows the error and the next poll is armed
    at 60 seconds, whatever the configured intervals; a 403 from the usage
    endpoint is an authentication failure. *)
Theorem failed_cycle_backs_off (net : network) (st : indicator) (m : message) :
  cycle_fails net st m ->
  ends_in_backoff st m (poll net st) /\
  (forall org body,
      _cookieHeader st <> None ->
      truthy (_orgId st) = true ->
      ToString (_orgId st) = Ret org ->
      net (usage_url org) = Http 403 body ->
      ends_in_backoff st Msg_auth_failed (poll net st)).
Proof.
  intro H. split; [now apply poll_failure |].
  intros org body Hc Ht Ho Hn.
  apply (poll_usage_error net st org Msg_auth_failed); try assumption.
  now rewrite Hn.
Qed.

Lemma failed_cycle_backs_off_witness :
  ends_in_backoff scenario_indicator Msg_auth_failed
    (poll (always 403 None) scenario_indicator).
Proof.
  apply (failed_cycle_backs_off (always 403 None) scenario_indicator Msg_auth_failed).
  apply (fails_usage _ _ "org-1"); [discriminate | reflexivity ..].
Defined.

(** C8: with an empty or absent credential, _get calls back at once with the
    missing-cookie error whatever the URL; no request is recorded and the
    network is not consulted. *)
Theorem no_credential_no_request
    (net : network) (url : string)
    (callback : json -> option message -> indicator -> indicator)
    (st : indicator) :
  session_cookie st = None \/ session_cookie st = Some "" ->
  _get net url callback st = callback JNull (Some Msg_no_cookie) st /\
  (forall net', _get net' url callback st = _get net url callback st) /\
  requests (_get net url on_usage st) = requests st /\
  statusText (_get net url on_usage st) = Msg_no_cookie /\
  _timerId (_get net url on_usage st) = Some 60.
Proof.
  intro H.
  assert (Hc : _cookieHeader st = None)
    by (unfold _cookieHeader; destruct H as [-> | ->]; reflexivity).
  split; [now apply get_no_cookie |].
  split; [intro net'; now rewrite !get_no_cookie |].
  rewrite get_no_cookie by exact Hc. repeat split.
Qed.

Lemma no_credential_no_request_witness :
  requests
    (_get (always 200 (Some (scenario_quotas 5000))) (usage_url "org-1") on_usage
          (mkIndicator (Some "") 120 15 1000 20000 (Some (JStr "org-1"))
                       1000 20000 None JNull JNull Msg_usage None None []))
  = [].
Proof.
  apply (no_credential_no_request (always 200 (Some (scenario_quotas 5000)))
           (usage_url "org-1") on_usage).
  right. reflexivity.
Defined.

(** ** The adaptive interval *)

Lemma applyUsageData_normal (data : json) (st : indicator) (snap : snapshot) :
  normalize data = Ret snap ->
  reset_label (sessionReset snap) = Ret tt ->
  reset_label (weeklyReset snap) = Ret tt ->
  _applyUsageData data st
  = Normal
      (_scheduleNextPoll (nextInterval snap st)
         (with_reset_times (sessionReset snap) (weeklyReset snap)
            (with_details Msg_usage
               (Some (sessionUsed snap, sessionLimit snap,
                      percentage (sessionUsed snap) (sessionLimit snap)))
               (Some (weeklyUsed snap, weeklyLimit snap,
                      percentage (weeklyUsed snap) (weeklyLimit snap)))
               (with_last_used (sessionUsed snap) (weeklyUsed snap) st)))).
Proof.
  intros Hn Hs Hw. unfold _applyUsageData. rewrite Hn, Hs. cbn [bind].
  now rewrite Hw.
Qed.

Lemma nextInterval_active (snap : snapshot) (st : indicator) :
  sessionUsed snap > _lastSessionUsed st \/ weeklyUsed snap > _lastWeeklyUsed st ->
  nextInterval snap st = poll_interval_active st.
Proof.
  intro H. unfold nextInterval, tokensMoved.
  destruct (Z.gtb_spec (sessionUsed snap) (_lastSessionUsed st)),
           (Z.gtb_spec (weeklyUsed snap) (_lastWeeklyUsed st)); cbn; lia || reflexivity.
Qed.

Lemma nextInterval_idle (snap : snapshot) (st : indicator) :
  sessionUsed snap <= _lastSessionUsed st ->
  weeklyUsed snap <= _lastWeeklyUsed st ->
  nextInterval snap st = poll_interval_idle st.
Proof.
  intros Hs Hw. unfold nextInterval, tokensMoved.
  destruct (Z.gtb_spec (sessionUsed snap) (_lastSessionUsed st)),
           (Z.gtb_spec (weeklyUsed snap) (_lastWeeklyUsed st)); cbn; lia || reflexivity.
Qed.

Lemma on_usage_reschedules (data : json) (snap : snapshot) (st0 st : indicator) :
  normalize data = Ret snap ->
  reset_label (sessionReset snap) = Ret tt ->
  reset_label (weeklyReset snap) = Ret tt ->
  _lastSessionUsed st = _lastSessionUsed st0 ->
  _lastWeeklyUsed st = _lastWeeklyUsed st0 ->
  poll_interval_active st = poll_interval_active st0 ->
  poll_interval_idle st = poll_interval_idle st0 ->
  rescheduled_adaptively snap st0 (on_usage data None st).
Proof.
  intros Hn Hs Hw H1 H2 H3 H4. unfold on_usage.
  rewrite (applyUsageData_normal data st snap Hn Hs Hw).
  unfold rescheduled_adaptively.
  cbn [_timerId _scheduleNextPoll with_timer _lastSessionUsed _lastWeeklyUsed
       last_session_used last_weekly_used with_reset_times with_details with_last_used].
  rewrite <- H1, <- H2, <- H3, <- H4.
  split; [intro H; f_equal; now apply nextInterval_active |].
  split; [intros [Ha Hb]; f_equal; now apply nextInterval_idle |].
  repeat split.
Qed.

Lemma spec_fetch_error_2xx (status : Z) (data : json) :
  200 <= status < 300 -> spec_fetch_error (Http status (Some data)) = None.
Proof.
  intro H. cbn [spec_fetch_error].
  destruct (Z.eqb_spec status 401), (Z.eqb_spec status 403),
    (Z.leb_spec 200 status), (Z.ltb_spec status 300); cbn; lia || reflexivity.
Qed.

Lemma applyUsageData_unrendered (data : json) (st : indicator) (snap : snapshot) :
  normalize data = Ret snap ->
  reset_label (sessionReset snap) = TypeError
  \/ reset_label (weeklyReset snap) = TypeError ->
  _applyUsageData data st
  = Abrupt
      (with_reset_times (sessionReset snap) (weeklyReset snap)
         (with_details Msg_usage
            (Some (sessionUsed snap, sessionLimit snap,
                   percentage (sessionUsed snap) (sessionLimit snap)))
            (Some (weeklyUsed snap, weeklyLimit snap,
                   percentage (weeklyUsed snap) (weeklyLimit snap)))
            (with_last_used (sessionUsed snap) (weeklyUsed snap) st))).
Proof.
  intros Hn H. unfold _applyUsageData. rewrite Hn.
  destruct H as [H | H].
  - now rewrite H.
  - rewrite H. now destruct (reset_label (sessionReset snap)) as [[] |].
Qed.

(** C6, as stated, fails: a usage fetch that succeeds and whose Session.used
    has risen from 1000 to 5000 stores the new values, but when a reset time
    cannot be rendered the next delay is 60 seconds and not the active
    interval of 15. *)
Lemma unrendered_reset_backs_off :
  exists snap st',
    normalize unrenderable_reset_usage = Ret snap /\
    poll (always 200 (Some unrenderable_reset_usage)) scenario_indicator = Normal st' /\
    sessionUsed snap = 5000 /\
    _lastSessionUsed scenario_indicator = 1000 /\
    poll_interval_active scenario_indicator = 15 /\
    _lastSessionUsed st' = 5000 /\
    last_session_used st' = 5000 /\
    statusText st' = Msg_parse_error /\
    _timerId st' = Some 60 /\
    ~ rescheduled_adaptively snap scenario_indicator st'.
Proof.
  eexists. eexists. split; [vm_compute; reflexivity |].
  split; [vm_compute; reflexivity |].
  repeat (split; [reflexivity |]).
  intros (H & _). specialize (H (or_introl eq_refl)). discriminate H.
Qed.

(** C6, amended: after a usage fetch that succeeds, on a payload within the
    range in which the embedding is exact and with used values that fit the
    32 bits of set_int, the new Session.used and Weekly.used are compared
    with the values stored by the previous cycle and are stored and persisted
    for the next comparison.  When both reset times can be rendered, the
    timer is armed at the active interval if either value is strictly
    greater than the stored one and at the idle interval otherwise
    (unchanged or lower); this holds for the usage callback itself, for a
    poll with a cached organisation, and for a poll that first resolves the
    organisation.  When a reset time cannot be rendered, the status line
    shows a parse error and the timer is armed at 60 seconds. *)
Theorem adaptive_interval_after_success
    (data : json) (snap : snapshot) (st : indicator) :
  exact_payload data ->
  normalize data = Ret snap ->
  int32 (sessionUsed snap) -> int32 (weeklyUsed snap) ->
  counters_stored snap (on_usage data None st) /\
  (reset_label (sessionReset snap) = Ret tt ->
   reset_label (weeklyReset snap) = Ret tt ->
   rescheduled_adaptively snap st (on_usage data None st) /\
   (forall net org status,
       _cookieHeader st <> None ->
       truthy (_orgId st) = true ->
       ToString (_orgId st) = Ret org ->
       net (usage_url org) = Http status (Some data) ->
       200 <= status < 300 ->
       exists st', poll net st = Normal st' /\ rescheduled_adaptively snap st st') /\
   (forall net status0 account org status,
       _cookieHeader st <> None ->
       truthy (_orgId st) = false ->
       net ACCOUNT_ENDPOINT = Http status0 (Some account) ->
       200 <= status0 < 300 ->
       truthy (resolve_orgId account) = true ->
       ToString (resolve_orgId account) = Ret org ->
       net (usage_url org) = Http status (Some data) ->
       200 <= status < 300 ->
       exists st', poll net st = Normal st' /\ rescheduled_adaptively snap st st')) /\
  (reset_label (sessionReset snap) = TypeError
   \/ reset_label (weeklyReset snap) = TypeError ->
   statusText (on_usage data None st) = Msg_parse_error /\
   _timerId (on_usage data None st) = Some 60).
Proof.
  intros _ Hn _ _. split; [| split].
  - unfold on_usage, _applyUsageData. rewrite Hn.
    destruct (_ <- reset_label (sessionReset snap) ;; reset_label (weeklyReset snap));
      repeat split.
  - intros Hs Hw. split; [| split].
    + now apply on_usage_reschedules.
    + intros net org status Hc Ht Ho Hnet Hst.
      assert (He : spec_fetch_error (net (usage_url org)) = None)
        by (rewrite Hnet; now apply spec_fetch_error_2xx).
      unfold poll, _fetchData.
      change (_orgId (with_timer None st)) with (_orgId st). rewrite Ht. cbn [negb].
      unfold _fetchUsage. change (_orgId (with_timer None st)) with (_orgId st).
      rewrite Ho.
      rewrite (get_ok net (usage_url org) on_usage (with_timer None st) status data
                 Hc Hnet He).
      eexists; split; [reflexivity |]. now apply on_usage_reschedules.
    + intros net status0 account org status Hc Ht Hacc Hst0 Hr Ho Hnet Hst.
      assert (He0 : spec_fetch_error (net ACCOUNT_ENDPOINT) = None)
        by (rewrite Hacc; now apply spec_fetch_error_2xx).
      assert (He : spec_fetch_error (net (usage_url org)) = None)
        by (rewrite Hnet; now apply spec_fetch_error_2xx).
      rewrite (poll_account_ok net st status0 account Hc Ht Hacc He0).
      unfold on_account.
      change (_orgId (with_orgId (resolve_orgId account) ?x))
        with (resolve_orgId account).
      rewrite Hr. cbn [negb]. unfold _fetchUsage.
      change (_orgId (with_orgId (resolve_orgId account) ?x))
        with (resolve_orgId account).
      rewrite Ho.
      match goal with
      | |- context [_get net (usage_url org) on_usage ?s] =>
          rewrite (get_ok net (usage_url org) on_usage s status data Hc Hnet He)
      end.
      eexists; split; [reflexivity |]. now apply on_usage_reschedules.
  - intro H. unfold on_usage.
    rewrite (applyUsageData_unrendered data st snap Hn H). split; reflexivity.
Qed.

Lemma adaptive_interval_after_success_witness :
  exists st',
    poll (always 200 (Some (scenario_quotas 5000))) scenario_indicator = Normal st' /\
    _timerId st' = Some 15 /\
    _lastSessionUsed st' = 5000 /\
    exists st'',
      poll (always 200 (Some (scenario_quotas 5000))) st' = Normal st'' /\
      _timerId st'' = Some 120.
Proof.
  destruct (adaptive_interval_after_success
              (scenario_quotas 5000)
              (mkSnapshot 5000 200000 JNull 20000 1000000 JNull) scenario_indicator)
    as (_ & Hok & _).
  - split; [reflexivity |]. split; [| split].
    + intros es e Hes Hin. vm_compute in Hes. injection Hes as <-. destruct Hin.
    + intros q [<- | [<- | []]] used limit Hu Hl _; vm_compute in Hu, Hl;
        injection Hu as <-; injection Hl as <-; repeat split; reflexivity.
    + intros es kv Hes Hin n _ Hk. vm_compute in Hes. injection Hes as <-.
      destruct Hin as [<- | []]. vm_compute in Hk. discriminate Hk.
  - vm_compute. reflexivity.
  - split; [discriminate | reflexivity].
  - split; [discriminate | reflexivity].
  - destruct (Hok eq_refl eq_refl) as (_ & Hpoll & _).
    destruct (Hpoll (always 200 (Some (scenario_quotas 5000))) "org-1" 200)
      as (st' & Hp & Ha & _ & Hl & _);
      [ discriminate | reflexivity | reflexivity | reflexivity | lia | ].
    exists st'. split; [exact Hp |].
    split; [apply Ha; left; vm_compute; reflexivity |].
    split; [exact Hl |].
    injection Hp as <-.
    eexists. split; vm_compute; reflexivity.
Defined.

(** ** Conversions that do not raise *)

Lemma join_plain (items : list json) :
  Forall (fun x => plain x = true -> exists s, ToString_json x = Ret s) items ->
  forallb plain items = true ->
  exists s, join ToString_json items = Ret s.
Proof.
  induction 1 as [| x rest Hx _ IH]; intro Hp.
  - now exists "".
  - cbn [forallb] in Hp. apply andb_true_iff in Hp as [Hpx Hprest].
    destruct (IH Hprest) as [r Hr]. destruct (Hx Hpx) as [s Hs].
    cbn [join].
    assert (E : exists s', match x with JNull => Ret "" | _ => ToString_json x end
                           = Ret s')
      by (destruct x; eauto).
    destruct E as [s' ->]. cbn [bind].
    destruct rest; [now exists s' |]. rewrite Hr. cbn [bind]. eauto.
Qed.

Lemma ToString_json_plain (j : json) :
  plain j = true -> exists s, ToString_json j = Ret s.
Proof.
  induction j as [| b | z | s | items IH | props _] using json_induction; intro Hp.
  - now exists "null".
  - destruct b; eexists; reflexivity.
  - now exists (Number_toString z).
  - now exists s.
  - cbn [ToString_json]. now apply join_plain.
  - cbn [plain] in Hp. apply andb_true_iff in Hp as [Hown _].
    cbn [ToString_json]. destruct (has_own "toString" props); [discriminate | eexists; reflexivity].
Qed.

Lemma ToString_plain (v : value) :
  plain_value v = true -> exists s, ToString v = Ret s.
Proof.
  destruct v as [j |]; [apply ToString_json_plain | now exists "undefined"].
Qed.

Lemma safeInt_plain (v : value) :
  plain_value v = true -> exists z, _safeInt v = Ret z.
Proof.
  intro H. destruct (ToString_plain v H) as [s Hs].
  unfold _safeInt, parseInt. rewrite Hs. cbn [bind]. eauto.
Qed.

Lemma test_plain (r : regex) (v : value) :
  plain_value v = true -> exists b, test r v = Ret b.
Proof.
  intro H. destruct (ToString_plain v H) as [s Hs].
  unfold test. rewrite Hs. cbn [bind]. eauto.
Qed.

Lemma lookup_plain (k : string) (props : list (string * json)) :
  forallb (fun p => plain (snd p)) props = true ->
  plain_value (lookup k props) = true.
Proof.
  induction props as [| [k' v] rest IH]; intro H; [reflexivity |].
  cbn [forallb snd] in H. apply andb_true_iff in H as [Hv Hrest].
  cbn [lookup]. destruct (String.eqb k k'); [exact Hv | now apply IH].
Qed.

Lemma get_plain (v : value) (k : string) :
  plain_value v = true -> plain_value (get v k) = true.
Proof.
  destruct v as [[| | | | |props] |]; try reflexivity.
  cbn [plain_value plain get]. intro H. apply andb_true_iff in H as [_ H].
  now apply lookup_plain.
Qed.

Lemma coalesce_plain (a b : value) :
  plain_value a = true -> plain_value b = true -> plain_value (a ?? b) = true.
Proof. intros Ha Hb. unfold coalesce. now destruct (nullish a). Qed.

Create HintDb plain.
#[local] Hint Resolve get_plain coalesce_plain : plain.

Lemma for_of_total {A S : Type} (body : S -> A -> outcome S) (l : list A) :
  (forall x, In x l -> forall s, exists s', body s x = Ret s') ->
  forall s, exists s', for_of body l s = Ret s'.
Proof.
  induction l as [| x rest IH]; intros H s; [now exists s |].
  destruct (H x (or_introl eq_refl) s) as [s1 H1].
  cbn [for_of]. rewrite H1. cbn [bind].
  apply IH. intros y Hy. apply H. now right.
Qed.

(** ** The normaliser does not raise on plain payloads *)

Lemma schemaA_entry_total (entry : json) :
  plain entry = true -> forall s, exists s', schemaA_entry s entry = Ret s'.
Proof.
  intros Hp s.
  assert (He : plain_value (Some entry) = true) by exact Hp.
  destruct (safeInt_plain (get (Some entry) "remaining"
                             ?? get (Some entry) "tokens_remaining"))
    as [rem Hrem]; [auto with plain |].
  destruct (safeInt_plain (get (Some entry) "total" ?? get (Some entry) "tokens_total"
                             ?? get (Some entry) "limit"))
    as [tot Htot]; [auto with plain |].
  assert (Hty : plain_value (typeA entry) = true)
    by (unfold typeA; auto with plain).
  destruct (test_plain re_session_A _ Hty) as [b1 H1].
  destruct (test_plain re_week _ Hty) as [b2 H2].
  unfold schemaA_entry, remA, totA. rewrite Hrem, Htot, H1. cbn [bind].
  destruct b1; [eauto |]. rewrite H2. cbn [bind]. destruct b2; eauto.
Qed.

Lemma schemaB_entry_total (q : json) :
  plain q = true -> forall s, exists s', schemaB_entry s q = Ret s'.
Proof.
  intros Hp s.
  assert (He : plain_value (Some q) = true) by exact Hp.
  destruct (safeInt_plain (get (Some q) "used" ?? get (Some q) "tokens_used"))
    as [used Hused]; [auto with plain |].
  destruct (safeInt_plain (get (Some q) "limit" ?? get (Some q) "tokens_limit"
                             ?? get (Some q) "total"))
    as [limit Hlimit]; [auto with plain |].
  assert (Hty : plain_value (typeB q) = true)
    by (unfold typeB; auto 6 with plain).
  destruct (test_plain re_session_B _ Hty) as [b1 H1].
  destruct (test_plain re_week _ Hty) as [b2 H2].
  unfold schemaB_entry, usedB, limitB. rewrite Hused, Hlimit, H1. cbn [bind].
  destruct b1; [eauto |]. rewrite H2. cbn [bind]. destruct b2; eauto.
Qed.

Lemma schemaC_entry_total (kv : string * json) :
  plain (snd kv) = true -> forall s, exists s', schemaC_entry s kv = Ret s'.
Proof.
  destruct kv as [k v]. cbn [snd]. intros Hp s.
  destruct (safeInt_plain (Some v) Hp) as [n Hn].
  unfold schemaC_entry. cbn [test ToString ToString_json bind]. rewrite Hn.
  cbn [bind].
  destruct (search re_5hour k), (search re_used k), (search re_limit_total k),
    (search re_week k); cbn [bind]; eauto.
Qed.

Lemma chars_plain (s : string) : forallb plain (chars s) = true.
Proof. induction s; [reflexivity | exact IHs]. Qed.

Lemma indexed_plain (l : list json) (i : nat) :
  forallb plain l = true ->
  forallb (fun p => plain (snd p)) (indexed i l) = true.
Proof.
  revert i. induction l as [| x rest IH]; intros i H; [reflexivity |].
  cbn [forallb] in H. apply andb_true_iff in H as [Hx Hrest].
  cbn [indexed forallb snd]. rewrite Hx. now apply IH.
Qed.

Lemma Object_entries_plain (j : json) :
  plain j = true -> j <> JNull ->
  exists es, Object_entries j = Ret es
             /\ forallb (fun p => plain (snd p)) es = true.
Proof.
  intros Hp Hn. destruct j as [| b | z | s | items | props]; [congruence | ..];
    cbn [Object_entries]; eexists; (split; [reflexivity |]).
  - reflexivity.
  - reflexivity.
  - apply indexed_plain, chars_plain.
  - now apply indexed_plain.
  - cbn [plain] in Hp. now apply andb_true_iff in Hp as [_ Hp].
Qed.

Lemma forallb_map_snd (es : list (string * json)) :
  forallb plain (map snd es) = forallb (fun p => plain (snd p)) es.
Proof. induction es as [| p rest IH]; [reflexivity | cbn; now rewrite IH]. Qed.

Lemma entriesA_plain (data : json) :
  plain data = true ->
  exists es, entriesA data = Ret es /\ forallb plain es = true.
Proof.
  intro Hp. unfold entriesA.
  assert (Hrl : plain_value (get (Some data) "rate_limit_status") = true)
    by (apply get_plain; exact Hp).
  destruct (get (Some data) "rate_limit_status") as [rl |]; [| now exists []].
  destruct (truthy (Some rl)) eqn:Ht; [| now exists []].
  destruct rl as [| b | z | s | items | props]; try discriminate.
  - now exists [].
  - now exists [].
  - unfold Object_values. cbn [Object_entries bind]. eexists; split; [reflexivity |].
    rewrite forallb_map_snd. apply indexed_plain, chars_plain.
  - now exists items.
  - unfold Object_values. cbn [Object_entries bind]. eexists; split; [reflexivity |].
    rewrite forallb_map_snd. cbn [plain_value plain] in Hrl.
    now apply andb_true_iff in Hrl as [_ Hrl].
Qed.

Lemma entriesB_plain (data : json) :
  plain data = true -> forallb plain (entriesB data) = true.
Proof.
  intro Hp. unfold entriesB.
  assert (H : plain_value (get (Some data) "quotas" ?? get (Some data) "limits"
                             ?? get (Some data) "usage_limits" ?? Some (JArr []))
              = true)
    by (assert (plain_value (Some data) = true) by exact Hp; auto 6 with plain).
  destruct (get (Some data) "quotas" ?? get (Some data) "limits"
              ?? get (Some data) "usage_limits" ?? Some (JArr []))
    as [[| | | | items |] |]; try reflexivity.
  exact H.
Qed.

Lemma entriesC_plain (data : json) :
  plain data = true ->
  exists es, entriesC data = Ret es
             /\ forallb (fun p => plain (snd p)) es = true.
Proof.
  intro Hp. unfold entriesC. destruct data; [now exists [] | ..];
    apply Object_entries_plain; (exact Hp || discriminate).
Qed.

Lemma normalize_total (data : json) :
  plain data = true -> exists snap, normalize data = Ret snap.
Proof.
  intro Hp. unfold normalize, schemaA, schemaB, schemaC.
  destruct (entriesA_plain data Hp) as (esA & -> & HA). cbn [bind].
  destruct (for_of_total schemaA_entry esA) with (s := initial) as [a ->].
  { intros x Hx. apply schemaA_entry_total.
    rewrite forallb_forall in HA. now apply HA. }
  cbn [bind].
  destruct (for_of_total schemaB_entry (entriesB data)) with (s := a) as [b ->].
  { intros x Hx. apply schemaB_entry_total.
    pose proof (entriesB_plain data Hp) as HB.
    rewrite forallb_forall in HB. now apply HB. }
  cbn [bind]. destruct (sessionLimit b <=? 1); [| eauto].
  destruct (entriesC_plain data Hp) as (esC & -> & HC). cbn [bind].
  apply for_of_total. intros x Hx. apply schemaC_entry_total.
  rewrite forallb_forall in HC. now apply HC.
Qed.

(** ** Windows that no schema recognises keep their defaults *)

Lemma for_of_frame {A S T : Type} (body : S -> A -> outcome S) (f : S -> T)
    (l : list A) :
  (forall x, In x l -> forall s s', body s x = Ret s' -> f s' = f s) ->
  forall s s', for_of body l s = Ret s' -> f s' = f s.
Proof.
  induction l as [| x rest IH]; intros H s s' Hrun; cbn [for_of] in Hrun.
  - now injection Hrun as <-.
  - apply bind_inv in Hrun as (s1 & H1 & Hrest).
    rewrite (IH (fun y Hy => H y (or_intror Hy)) s1 s' Hrest).
    now apply (H x (or_introl eq_refl)).
Qed.

Lemma schemaA_entry_session_frame (s s' : snapshot) (entry : json) :
  test re_session_A (typeA entry) = Ret false ->
  schemaA_entry s entry = Ret s' -> session_of s' = session_of s.
Proof.
  intros Ht H. unfold schemaA_entry in H.
  apply bind_inv in H as (rem & _ & H). apply bind_inv in H as (tot & _ & H).
  rewrite Ht in H. cbn [bind] in H.
  apply bind_inv in H as ([|] & _ & H); now injection H as <-.
Qed.

Lemma schemaA_entry_weekly_frame (s s' : snapshot) (entry : json) :
  test re_week (typeA entry) = Ret false ->
  schemaA_entry s entry = Ret s' -> weekly_of s' = weekly_of s.
Proof.
  intros Ht H. unfold schemaA_entry in H.
  apply bind_inv in H as (rem & _ & H). apply bind_inv in H as (tot & _ & H).
  apply bind_inv in H as ([|] & _ & H); [now injection H as <- |].
  rewrite Ht in H. cbn [bind] in H. now injection H as <-.
Qed.

Lemma schemaB_entry_session_frame (s s' : snapshot) (q : json) :
  test re_session_B (typeB q) = Ret false ->
  schemaB_entry s q = Ret s' -> session_of s' = session_of s.
Proof.
  intros Ht H. unfold schemaB_entry in H.
  apply bind_inv in H as (used & _ & H). apply bind_inv in H as (limit & _ & H).
  rewrite Ht in H. cbn [bind] in H.
  apply bind_inv in H as ([|] & _ & H); now injection H as <-.
Qed.

Lemma schemaB_entry_weekly_frame (s s' : snapshot) (q : json) :
  test re_week (typeB q) = Ret false ->
  schemaB_entry s q = Ret s' -> weekly_of s' = weekly_of s.
Proof.
  intros Ht H. unfold schemaB_entry in H.
  apply bind_inv in H as (used & _ & H). apply bind_inv in H as (limit & _ & H).
  apply bind_inv in H as ([|] & _ & H); [now injection H as <- |].
  rewrite Ht in H. cbn [bind] in H. now injection H as <-.
Qed.

Lemma schemaC_entry_session_frame (s s' : snapshot) (k : string) (v : json) :
  search re_5hour k && (search re_used k || search re_limit_total k) = false ->
  schemaC_entry s (k, v) = Ret s' -> session_of s' = session_of s.
Proof.
  intros Hk H. unfold schemaC_entry in H.
  cbn [test ToString ToString_json bind] in H.
  destruct (search re_5hour k), (search re_used k), (search re_limit_total k);
    try discriminate Hk; cbn [bind] in H;
    destruct (search re_week k); cbn [bind] in H;
    destruct (_safeInt (Some v)); cbn [bind] in H;
    try discriminate H; now injection H as <-.
Qed.

Lemma schemaC_entry_weekly_frame (s s' : snapshot) (k : string) (v : json) :
  search re_week k && (search re_used k || search re_limit_total k) = false ->
  schemaC_entry s (k, v) = Ret s' -> weekly_of s' = weekly_of s.
Proof.
  intros Hk H. unfold schemaC_entry in H.
  cbn [test ToString ToString_json bind] in H.
  destruct (search re_week k), (search re_used k), (search re_limit_total k);
    try discriminate Hk;
    destruct (search re_5hour k); cbn [bind] in H;
    destruct (_safeInt (Some v)); cbn [bind] in H;
    try discriminate H; now injection H as <-.
Qed.

Lemma normalize_stages (data : json) (snap : snapshot) :
  normalize data = Ret snap ->
  exists esA a b,
    entriesA data = Ret esA /\
    for_of schemaA_entry esA initial = Ret a /\
    for_of schemaB_entry (entriesB data) a = Ret b /\
    schemaC data b = Ret snap.
Proof.
  unfold normalize, schemaA, schemaB. intro H.
  apply bind_inv in H as (a & Ha & H). apply bind_inv in Ha as (esA & HesA & Ha).
  apply bind_inv in H as (b & Hb & H). now exists esA, a, b.
Qed.

Lemma normalize_session_default (data : json) (snap : snapshot) :
  normalize data = Ret snap -> session_unrecognized data ->
  session_of snap = (0, 1, JNull).
Proof.
  intros H (HA & HB & HC).
  apply normalize_stages in H as (esA & a & b & HesA & Ha & Hb & Hc).
  change (0, 1, JNull) with (session_of initial).
  rewrite <- (for_of_frame schemaA_entry session_of esA
                (fun e He s s' => schemaA_entry_session_frame s s' e (HA esA e HesA He))
                initial a Ha).
  rewrite <- (for_of_frame schemaB_entry session_of (entriesB data)
                (fun q Hq s s' => schemaB_entry_session_frame s s' q (HB q Hq))
                a b Hb).
  unfold schemaC in Hc. destruct (sessionLimit b <=? 1); [| now injection Hc as <-].
  apply bind_inv in Hc as (esC & HesC & Hc).
  apply (for_of_frame schemaC_entry session_of esC); [| exact Hc].
  intros [k v] Hin s s'. apply schemaC_entry_session_frame. now apply (HC esC k v).
Qed.

Lemma normalize_weekly_default (data : json) (snap : snapshot) :
  normalize data = Ret snap -> weekly_unrecognized data ->
  weekly_of snap = (0, 1, JNull).
Proof.
  intros H (HA & HB & HC).
  apply normalize_stages in H as (esA & a & b & HesA & Ha & Hb & Hc).
  change (0, 1, JNull) with (weekly_of initial).
  rewrite <- (for_of_frame schemaA_entry weekly_of esA
                (fun e He s s' => schemaA_entry_weekly_frame s s' e (HA esA e HesA He))
                initial a Ha).
  rewrite <- (for_of_frame schemaB_entry weekly_of (entriesB data)
                (fun q Hq s s' => schemaB_entry_weekly_frame s s' q (HB q Hq))
                a b Hb).
  unfold schemaC in Hc. destruct (sessionLimit b <=? 1); [| now injection Hc as <-].
  apply bind_inv in Hc as (esC & HesC & Hc).
  apply (for_of_frame schemaC_entry weekly_of esC); [| exact Hc].
  intros [k v] Hin s s'. apply schemaC_entry_weekly_frame. now apply (HC esC k v).
Qed.

(** C3, as stated, fails: a payload whose entry has an object with a toString
    key as its type makes the pattern test raise. *)
Lemma normalizer_raises_on_shadowed_toString :
  plain shadowing_payload = false /\
  ~ (exists snap, normalize shadowing_payload = Ret snap).
Proof.
  split; [reflexivity |]. intros [snap H]. vm_compute in H. discriminate H.
Qed.

(** C3, amended: on every payload in which no object has an own property
    named toString the normaliser returns a snapshot; when it raises, the
    usage callback reports a parse error and re-arms the timer at 60 seconds;
    and whenever it returns, a window that no entry, item or key of the
    payload is recognised for keeps used = 0, limit = 1, reset = null. *)
Theorem normalizer_total_on_plain_payloads (data : json) :
  (plain data = true -> exists snap, normalize data = Ret snap) /\
  (forall st,
      normalize data = TypeError ->
      on_usage data None st = _scheduleNextPoll 60 (_setStatus Msg_parse_error st)) /\
  (forall snap,
      normalize data = Ret snap -> session_unrecognized data ->
      session_of snap = (0, 1, JNull)) /\
  (forall snap,
      normalize data = Ret snap -> weekly_unrecognized data ->
      weekly_of snap = (0, 1, JNull)).
Proof.
  split; [apply normalize_total |].
  split; [intros st H; unfold on_usage, _applyUsageData; now rewrite H |].
  split; intros snap H Hu;
    [now apply (normalize_session_default data) |
     now apply (normalize_weekly_default data)].
Qed.

Lemma normalizer_total_on_plain_payloads_witness :
  (exists snap, normalize scenario_usage = Ret snap) /\
  weekly_of (mkSnapshot 48000 200000 (JStr "2024-01-01T00:00:00Z") 0 1 JNull)
  = (0, 1, JNull).
Proof.
  destruct (normalizer_total_on_plain_payloads scenario_usage) as (Htot & _ & _ & Hw).
  split; [apply Htot; reflexivity |].
  apply Hw; [vm_compute; reflexivity |].
  split; [| split].
  - intros es e Hes Hin. vm_compute in Hes. injection Hes as <-.
    destruct Hin as [<- | []]. vm_compute. reflexivity.
  - intros q [].
  - intros es k v Hes Hin. vm_compute in Hes. injection Hes as <-.
    destruct Hin as [Hin | []]. injection Hin as <- <-. vm_compute. reflexivity.
Defined.

(** ** The window invariant *)

Lemma for_of_invariant {A S : Type} (body : S -> A -> outcome S) (P : S -> Prop)
    (l : list A) :
  (forall x, In x l -> forall s s', P s -> body s x = Ret s' -> P s') ->
  forall s s', P s -> for_of body l s = Ret s' -> P s'.
Proof.
  induction l as [| x rest IH]; intros H s s' Hs Hrun; cbn [for_of] in Hrun.
  - now injection Hrun as <-.
  - apply bind_inv in Hrun as (s1 & H1 & Hrest).
    apply (IH (fun y Hy => H y (or_intror Hy)) s1 s'); [| exact Hrest].
    now apply (H x (or_introl eq_refl) s s1).
Qed.

Lemma schemaA_entry_ok (s s' : snapshot) (entry : json) :
  entryA_ok entry -> windows_ok s -> schemaA_entry s entry = Ret s' -> windows_ok s'.
Proof.
  intros Hok Hs H. unfold schemaA_entry in H.
  apply bind_inv in H as (rem & Hrem & H). apply bind_inv in H as (tot & Htot & H).
  apply bind_inv in H as ([|] & H1 & H).
  - injection H as <-. destruct (Hok rem tot Hrem Htot (or_introl H1)).
    destruct Hs as [_ Hw]. split; [| exact Hw]. unfold window_ok; cbn. lia.
  - apply bind_inv in H as ([|] & H2 & H); injection H as <-; [| exact Hs].
    destruct (Hok rem tot Hrem Htot (or_intror H2)).
    destruct Hs as [Hse _]. split; [exact Hse |]. unfold window_ok; cbn. lia.
Qed.

Lemma schemaB_entry_ok (s s' : snapshot) (q : json) :
  itemB_ok q -> windows_ok s -> schemaB_entry s q = Ret s' -> windows_ok s'.
Proof.
  intros Hok Hs H. unfold schemaB_entry in H.
  apply bind_inv in H as (used & Hused & H).
  apply bind_inv in H as (limit & Hlimit & H).
  apply bind_inv in H as ([|] & H1 & H).
  - injection H as <-. destruct (Hok used limit Hused Hlimit (or_introl H1)).
    destruct Hs as [_ Hw]. split; [| exact Hw]. unfold window_ok; cbn. lia.
  - apply bind_inv in H as ([|] & H2 & H); injection H as <-; [| exact Hs].
    destruct (Hok used limit Hused Hlimit (or_intror H2)).
    destruct Hs as [Hse _]. split; [exact Hse |]. unfold window_ok; cbn. lia.
Qed.

Lemma schemaC_entry_ok (s s' : snapshot) (kv : string * json) :
  pairC_ok kv -> windows_ok s -> schemaC_entry s kv = Ret s' -> windows_ok s'.
Proof.
  destruct kv as [k v]. unfold pairC_ok. cbn [fst snd].
  intros Hok [[Hsu Hsl] [Hwu Hwl]] H.
  unfold window_ok, session_of, weekly_of in *. cbn [fst snd] in *.
  unfold schemaC_entry in H. cbn [test ToString ToString_json bind] in H.
  destruct (_safeInt (Some v)) as [n |].
  - specialize (Hok n eq_refl).
    destruct (search re_5hour k), (search re_week k),
      (search re_used k), (search re_limit_total k);
      cbn [bind orb] in *; injection H as <-;
      try (destruct (Hok eq_refl) as [Hu Hl]);
      unfold windows_ok, window_ok; cbn; repeat split;
      first [assumption | now apply Hu | now apply Hl].
  - destruct (search re_5hour k), (search re_week k),
      (search re_used k), (search re_limit_total k);
      cbn [bind] in H; try discriminate H; injection H as <-;
      unfold windows_ok, window_ok; cbn; auto.
Qed.

Lemma normalize_windows_ok (data : json) (snap : snapshot) :
  normalize data = Ret snap -> payload_ok data -> windows_ok snap.
Proof.
  intros H (HA & HB & HC).
  apply normalize_stages in H as (esA & a & b & HesA & Ha & Hb & Hc).
  assert (Hinit : windows_ok initial) by (unfold windows_ok, window_ok; cbn; lia).
  assert (Hoka : windows_ok a).
  { apply (for_of_invariant schemaA_entry windows_ok esA) with (s := initial);
      [| exact Hinit | exact Ha].
    intros e He s s' Hs. apply schemaA_entry_ok; [now apply (HA esA) | exact Hs]. }
  assert (Hokb : windows_ok b).
  { apply (for_of_invariant schemaB_entry windows_ok (entriesB data)) with (s := a);
      [| exact Hoka | exact Hb].
    intros q Hq s s' Hs. apply schemaB_entry_ok; [now apply HB | exact Hs]. }
  unfold schemaC in Hc. destruct (sessionLimit b <=? 1);
    [| now injection Hc as <-].
  apply bind_inv in Hc as (esC & HesC & Hc).
  apply (for_of_invariant schemaC_entry windows_ok esC) with (s := b);
    [| exact Hokb | exact Hc].
  intros kv Hkv s s' Hs. apply schemaC_entry_ok; [now apply (HC esC) | exact Hs].
Qed.

Lemma applyUsageData_details (data : json) (st st' : indicator) :
  _applyUsageData data st = Normal st' ->
  exists snap,
    normalize data = Ret snap /\
    sessionDetail st'
    = Some (sessionUsed snap, sessionLimit snap,
            percentage (sessionUsed snap) (sessionLimit snap)) /\
    weeklyDetail st'
    = Some (weeklyUsed snap, weeklyLimit snap,
            percentage (weeklyUsed snap) (weeklyLimit snap)).
Proof.
  unfold _applyUsageData. destruct (normalize data) as [snap |]; [| discriminate].
  destruct (_ <- reset_label (sessionReset snap) ;; reset_label (weeklyReset snap));
    [| discriminate].
  intro H. injection H as <-. now exists snap.
Qed.

(** C2, as stated, fails: an entry recognised as the Session window that
    reports 5 remaining and no total gives used = -5 and limit = 0. *)
Lemma window_invariant_fails_without_total :
  normalize no_total_payload = Ret (mkSnapshot (-5) 0 JNull 0 1 JNull) /\
  ~ (forall snap, normalize no_total_payload = Ret snap ->
                  0 <= sessionUsed snap /\ 0 < sessionLimit snap).
Proof.
  split; [vm_compute; reflexivity |].
  intro H. destruct (H _ eq_refl) as [H1 _]. vm_compute in H1. now apply H1.
Qed.

(** C2, amended: on a payload within the range in which the embedding is
    exact, used >= 0 and limit > 0 hold for both windows of the snapshot
    whenever every recognised entry of the payload reports a positive total
    (or limit) and a used value that is not negative (Schema A: remaining at
    most total); and the percentage shown for a window is 0 when its limit
    is not > 0 and is computed from used and limit otherwise. *)
Theorem window_invariant_for_sane_payloads (data : json) :
  exact_payload data ->
  (forall snap,
      normalize data = Ret snap -> payload_ok data ->
      window_ok (session_of snap) /\ window_ok (weekly_of snap)) /\
  (forall st st' used limit pct,
      _applyUsageData data st = Normal st' ->
      sessionDetail st' = Some (used, limit, pct)
      \/ weeklyDetail st' = Some (used, limit, pct) ->
      (limit <= 0 -> pct = Pct_zero) /\
      (0 < limit -> pct = Pct_round used limit)).
Proof.
  intros _. split; [intros snap H Hok; now apply (normalize_windows_ok data) |].
  intros st st' used limit pct H Hd.
  apply applyUsageData_details in H as (snap & _ & Hs & Hw).
  assert (E : pct = percentage used limit)
    by (destruct Hd as [Hd | Hd]; congruence).
  subst pct. unfold percentage.
  destruct (Z.ltb_spec 0 limit); split; intros; (reflexivity || lia).
Qed.

Lemma window_invariant_for_sane_payloads_witness :
  window_ok (session_of (mkSnapshot 5000 200000 JNull 20000 1000000 JNull)) /\
  window_ok (weekly_of (mkSnapshot 5000 200000 JNull 20000 1000000 JNull)).
Proof.
  destruct (window_invariant_for_sane_payloads (scenario_quotas 5000)) as [Hinv _].
  - split; [reflexivity |]. split; [| split].
    + intros es e Hes Hin. vm_compute in Hes. injection Hes as <-. destruct Hin.
    + intros q [<- | [<- | []]] used limit Hu Hl _; vm_compute in Hu, Hl;
        injection Hu as <-; injection Hl as <-; repeat split; reflexivity.
    + intros es kv Hes Hin n _ Hk. vm_compute in Hes. injection Hes as <-.
      destruct Hin as [<- | []]. vm_compute in Hk. discriminate Hk.
  - apply Hinv; [vm_compute; reflexivity |].
    split; [| split].
    + intros es e Hes Hin. vm_compute in Hes. injection Hes as <-. destruct Hin.
    + intros q Hin used limit Hu Hl _.
      destruct Hin as [<- | [<- | []]]; vm_compute in Hu, Hl;
        injection Hu as <-; injection Hl as <-; lia.
    + intros es kv Hes Hin n _ Hk. vm_compute in Hes. injection Hes as <-.
      destruct Hin as [<- | []]. vm_compute in Hk. discriminate Hk.
Defined.

(** ** The order of the schemas *)

Lemma for_of_app {A S : Type} (body : S -> A -> outcome S) (l1 l2 : list A) (s : S) :
  for_of body (l1 ++ l2) s = (s1 <- for_of body l1 s ;; for_of body l2 s1).
Proof.
  revert s. induction l1 as [| x rest IH]; intro s; [reflexivity |].
  cbn [List.app for_of]. destruct (body s x) as [s1 |]; cbn [bind];
    [apply IH | reflexivity].
Qed.

Lemma for_of_last_match {A S T : Type} (body : S -> A -> outcome S) (f : S -> T)
    (l1 l2 : list A) (e : A) (s s' : S) (t : T) :
  (forall s0 s1, body s0 e = Ret s1 -> f s1 = t) ->
  (forall x, In x l2 -> forall s0 s1, body s0 x = Ret s1 -> f s1 = f s0) ->
  for_of body (l1 ++ e :: l2) s = Ret s' ->
  f s' = t.
Proof.
  intros He Hl2 Hrun. rewrite for_of_app in Hrun.
  apply bind_inv in Hrun as (s1 & _ & Hrun). cbn [for_of] in Hrun.
  apply bind_inv in Hrun as (s2 & H2 & Hrun).
  rewrite (for_of_frame body f l2 Hl2 s2 s' Hrun). now apply (He s1).
Qed.

Lemma schemaC_skipped (data : json) (b : snapshot) :
  1 < sessionLimit b -> schemaC data b = Ret b.
Proof.
  intro H. unfold schemaC. destruct (Z.leb_spec (sessionLimit b) 1); [lia | reflexivity].
Qed.

Lemma normalize_gate (data : json) (a b : snapshot) :
  schemaA data initial = Ret a -> schemaB data a = Ret b ->
  1 < sessionLimit b -> normalize data = Ret b.
Proof.
  intros Ha Hb Hl. unfold normalize. rewrite Ha. cbn [bind]. rewrite Hb. cbn [bind].
  now apply schemaC_skipped.
Qed.

Lemma schemaB_entry_weekly (s : snapshot) (q : json) (used limit : Z) :
  usedB q = Ret used ->
  limitB q = Ret limit ->
  weeklyB q ->
  schemaB_entry s q = Ret (set_weekly s used limit (resetB q)).
Proof.
  intros Hu Hl [Hs Hw]. unfold schemaB_entry. now rewrite Hu, Hl, Hs, Hw.
Qed.

Lemma schemaA_entry_not_weekly (s s' : snapshot) (entry : json) :
  ~ weeklyA entry -> schemaA_entry s entry = Ret s' -> weekly_of s' = weekly_of s.
Proof.
  intros Hn H. unfold schemaA_entry in H.
  apply bind_inv in H as (rem & _ & H). apply bind_inv in H as (tot & _ & H).
  apply bind_inv in H as ([|] & H1 & H); [now injection H as <- |].
  apply bind_inv in H as ([|] & H2 & H); [| now injection H as <-].
  exfalso. apply Hn. now split.
Qed.

Lemma schemaB_entry_not_weekly (s s' : snapshot) (q : json) :
  ~ weeklyB q -> schemaB_entry s q = Ret s' -> weekly_of s' = weekly_of s.
Proof.
  intros Hn H. unfold schemaB_entry in H.
  apply bind_inv in H as (used & _ & H). apply bind_inv in H as (limit & _ & H).
  apply bind_inv in H as ([|] & H1 & H); [now injection H as <- |].
  apply bind_inv in H as ([|] & H2 & H); [| now injection H as <-].
  exfalso. apply Hn. now split.
Qed.

Lemma schemaC_entry_field (f : field) (s s' : snapshot) (k : string) (v : json) (n : Z) :
  key_sets f k = true ->
  _safeInt (Some v) = Ret n ->
  schemaC_entry s (k, v) = Ret s' ->
  field_of f s' = n.
Proof.
  intros Hk Hn H. unfold schemaC_entry in H.
  cbn [test ToString ToString_json bind] in H. rewrite Hn in H. cbn [bind] in H.
  destruct f; cbn [key_sets] in Hk; apply andb_true_iff in Hk as [Hw Hf];
    rewrite ?Hw, ?Hf in H; cbn [bind] in H;
    destruct (search re_5hour k), (search re_week k), (search re_used k),
      (search re_limit_total k);
    try discriminate; cbn [bind] in H; injection H as <-; reflexivity.
Qed.

Lemma schemaC_entry_field_kept (f : field) (s s' : snapshot) (kv : string * json) :
  key_sets f (fst kv) = false ->
  schemaC_entry s kv = Ret s' ->
  field_of f s' = field_of f s.
Proof.
  destruct kv as [k v]. cbn [fst]. intros Hk H. unfold schemaC_entry in H.
  cbn [test ToString ToString_json bind] in H.
  destruct f; cbn [key_sets] in Hk;
    destruct (search re_5hour k), (search re_week k), (search re_used k),
      (search re_limit_total k);
    try discriminate Hk; cbn [bind] in H;
    destruct (_safeInt (Some v)); cbn [bind] in H;
    try discriminate H; injection H as <-; reflexivity.
Qed.

Lemma normalize_open_gate (data : json) (a b snap : snapshot) :
  schemaA data initial = Ret a -> schemaB data a = Ret b ->
  sessionLimit b <= 1 -> normalize data = Ret snap ->
  exists es, entriesC data = Ret es /\ for_of schemaC_entry es b = Ret snap.
Proof.
  intros Ha Hb Hl H. unfold normalize in H. rewrite Ha in H. cbn [bind] in H.
  rewrite Hb in H. cbn [bind] in H. unfold schemaC in H.
  destruct (Z.leb_spec (sessionLimit b) 1); [| lia].
  apply bind_inv in H as (es & Hes & H). now exists es.
Qed.

(** C1, as stated, fails twice: with Schema A for Session and flat keys for
    Weekly the flat keys are never read and Weekly stays at its defaults,
    although the same keys alone fill it; and a Schema B item replaces the
    Session values that Schema A has set. *)
Lemma fallback_skipped_and_schemaB_overwrites :
  normalize fallback_payload = Ret (mkSnapshot 48000 200000 JNull 0 1 JNull) /\
  normalize flat_keys_payload = Ret (mkSnapshot 0 1 JNull 30000 1000000 JNull) /\
  ~ (forall snap, normalize fallback_payload = Ret snap ->
                  weekly_of snap = (30000, 1000000, JNull)) /\
  schemaA both_schemas_payload initial
  = Ret (mkSnapshot 48000 200000 JNull 0 1 JNull) /\
  normalize both_schemas_payload = Ret (mkSnapshot 7 20 JNull 0 1 JNull).
Proof.
  split; [vm_compute; reflexivity |].
  split; [vm_compute; reflexivity |].
  split; [| split; vm_compute; reflexivity].
  intro H. specialize (H _ eq_refl). vm_compute in H. discriminate H.
Qed.

(** C1, amended: the schemas are applied in the order A, B, C, and a later
    step overwrites.  In Schema B the last item assigned to a window sets
    that window, whatever Schema A left there.  Schema C is read only when
    the Session limit after A and B is at most 1; then each of the four
    numbers is what the last flat key that sets it carries, and what A and B
    left if no key sets it; otherwise the snapshot is the one A and B left.
    So when the Session limit after A and B exceeds 1 and no Schema A entry
    and no Schema B item is assigned to Weekly, Weekly keeps its defaults
    whatever the flat keys are.  All of it is stated for payloads within the
    range in which the embedding is exact. *)
Theorem schemas_in_order_with_gate :
  (forall l1 q l2 a b used limit,
      (forall x, In x (l1 ++ q :: l2)%list -> safe_numbers x = true /\ exact_itemB x) ->
      for_of schemaB_entry (l1 ++ q :: l2)%list a = Ret b ->
      usedB q = Ret used -> limitB q = Ret limit ->
      (test re_session_B (typeB q) = Ret true ->
       (forall x, In x l2 -> test re_session_B (typeB x) = Ret false) ->
       session_of b = (used, limit, resetB q)) /\
      (weeklyB q ->
       (forall x, In x l2 -> ~ weeklyB x) ->
       weekly_of b = (used, limit, resetB q))) /\
  (forall data a b,
      exact_payload data ->
      schemaA data initial = Ret a -> schemaB data a = Ret b ->
      1 < sessionLimit b -> normalize data = Ret b) /\
  (forall data a b snap f,
      exact_payload data ->
      schemaA data initial = Ret a -> schemaB data a = Ret b ->
      sessionLimit b <= 1 -> normalize data = Ret snap ->
      (forall l1 k v l2 n,
          entriesC data = Ret (l1 ++ (k, v) :: l2)%list ->
          key_sets f k = true ->
          (forall kv, In kv l2 -> key_sets f (fst kv) = false) ->
          _safeInt (Some v) = Ret n ->
          field_of f snap = n) /\
      ((forall es kv, entriesC data = Ret es -> In kv es ->
                      key_sets f (fst kv) = false) ->
       field_of f snap = field_of f b)) /\
  (forall data esA a b snap,
      exact_payload data ->
      entriesA data = Ret esA ->
      schemaA data initial = Ret a -> schemaB data a = Ret b ->
      normalize data = Ret snap ->
      1 < sessionLimit b ->
      (forall e, In e esA -> ~ weeklyA e) ->
      (forall q, In q (entriesB data) -> ~ weeklyB q) ->
      snap = b /\ weekly_of snap = (0, 1, JNull)).
Proof.
  split; [| split; [| split]].
  - intros l1 q l2 a b used limit _ Hrun Hu Hl. split.
    + intros Hm Hl2.
      apply (for_of_last_match schemaB_entry session_of l1 l2 q a b); [| | exact Hrun].
      * intros s0 s1 H. rewrite (schemaB_entry_session s0 q used limit Hu Hl Hm) in H.
        now injection H as <-.
      * intros x Hx s0 s1. apply schemaB_entry_session_frame. now apply Hl2.
    + intros Hm Hl2.
      apply (for_of_last_match schemaB_entry weekly_of l1 l2 q a b); [| | exact Hrun].
      * intros s0 s1 H. rewrite (schemaB_entry_weekly s0 q used limit Hu Hl Hm) in H.
        now injection H as <-.
      * intros x Hx s0 s1. apply schemaB_entry_not_weekly. now apply Hl2.
  - intros data a b _. apply normalize_gate.
  - intros data a b snap f _ Ha Hb Hl H.
    destruct (normalize_open_gate data a b snap Ha Hb Hl H) as (es & Hes & Hrun).
    split.
    + intros l1 k v l2 n Hes' Hk Hl2 Hn. rewrite Hes in Hes'. injection Hes' as ->.
      apply (for_of_last_match schemaC_entry (field_of f) l1 l2 (k, v) b snap);
        [| | exact Hrun].
      * intros s0 s1. now apply schemaC_entry_field.
      * intros x Hx s0 s1. apply schemaC_entry_field_kept. now apply Hl2.
    + intro Hnone.
      apply (for_of_frame schemaC_entry (field_of f) es); [| exact Hrun].
      intros x Hx s0 s1. apply schemaC_entry_field_kept. now apply (Hnone es).
  - intros data esA a b snap _ HesA Ha Hb H Hl HnA HnB.
    rewrite (normalize_gate data a b Ha Hb Hl) in H. injection H as <-.
    split; [reflexivity |].
    unfold schemaA in Ha. rewrite HesA in Ha. cbn [bind] in Ha.
    change (0, 1, JNull) with (weekly_of initial).
    rewrite <- (for_of_frame schemaA_entry weekly_of esA
                  (fun e He s s' => schemaA_entry_not_weekly s s' e (HnA e He))
                  initial a Ha).
    apply (for_of_frame schemaB_entry weekly_of (entriesB data)
             (fun q Hq s s' => schemaB_entry_not_weekly s s' q (HnB q Hq)) a b Hb).
Qed.

Lemma schemas_in_order_with_gate_witness :
  normalize fallback_payload = Ret (mkSnapshot 48000 200000 JNull 0 1 JNull)
  /\ weekly_of (mkSnapshot 48000 200000 JNull 0 1 JNull) = (0, 1, JNull).
Proof.
  destruct schemas_in_order_with_gate as (_ & Hgate & _ & Hweekly).
  assert (Hexact : exact_payload fallback_payload).
  { split; [reflexivity |]. split; [| split].
    - intros es e Hes Hin. vm_compute in Hes. injection Hes as <-.
      destruct Hin as [<- | []]. intros rem tot Hr Ht _.
      vm_compute in Hr, Ht. injection Hr as <-. injection Ht as <-.
      repeat split; reflexivity.
    - intros q [].
    - intros es kv Hes Hin n Hn _. vm_compute in Hes. injection Hes as <-.
      destruct Hin as [<- | [<- | [<- | []]]]; vm_compute in Hn;
        injection Hn as <-; reflexivity. }
  assert (Hnorm : normalize fallback_payload
                  = Ret (mkSnapshot 48000 200000 JNull 0 1 JNull)).
  { apply (Hgate fallback_payload (mkSnapshot 48000 200000 JNull 0 1 JNull));
      [exact Hexact | vm_compute; reflexivity | vm_compute; reflexivity | reflexivity]. }
  split; [exact Hnorm |].
  apply (Hweekly fallback_payload
           [JObj [("type", JStr "window5Hour"); ("remaining", JNum 152000);
                  ("total", JNum 200000)]]
           (mkSnapshot 48000 200000 JNull 0 1 JNull)
           (mkSnapshot 48000 200000 JNull 0 1 JNull)
           (mkSnapshot 48000 200000 JNull 0 1 JNull)).
  - exact Hexact.
  - reflexivity.
  - vm_compute. reflexivity.
  - vm_compute. reflexivity.
  - exact Hnorm.
  - reflexivity.
  - intros e [<- | []] [Hs _]. vm_compute in Hs. discriminate Hs.
  - intros q [].
Defined.

(** ** The organisation lookup *)

Lemma nullish_not_truthy (v : value) : nullish v = true -> truthy v = false.
Proof. destruct v as [[| | | | |] |]; (reflexivity || discriminate). Qed.

Lemma get_nullish (v : value) (k : string) : nullish v = true -> get v k = None.
Proof. destruct v as [[| | | | |] |]; (reflexivity || discriminate). Qed.

Lemma get0_nullish (v : value) : nullish v = true -> get0 v = None.
Proof. destruct v as [[| | | | |] |]; (reflexivity || discriminate). Qed.

Lemma coalesce_nullish (a b : value) : nullish a = true -> a ?? b = b.
Proof. intro H. unfold coalesce. now rewrite H. Qed.

Lemma coalesce_non_nullish (a b : value) : nullish a = false -> a ?? b = a.
Proof. intro H. unfold coalesce. now rewrite H. Qed.

Lemma identifier_of_nullish (org : value) :
  nullish org = true -> identifier_of org = None.
Proof. intro H. unfold identifier_of. now rewrite !(get_nullish org _ H). Qed.

Lemma coalesce_assoc (a b c : value) : (a ?? b) ?? c = a ?? b ?? c.
Proof.
  unfold coalesce. destruct (nullish a) eqn:Ha; [reflexivity | now rewrite Ha].
Qed.

Lemma resolve_orgId_unfold (data : json) :
  resolve_orgId data
  = let m := chosen_membership data in
    let id := identifier_of (get m "organization" ?? get m "workspace")
                ?? get (Some data) "id" ?? Some JNull in
    if negb (truthy id) then
      get (Some data) "organization_uuid"
        ?? get (get (Some data) "default_organization") "uuid" ?? Some JNull
    else id.
Proof.
  unfold resolve_orgId, chosen_membership, identifier_of. cbv zeta.
  now rewrite coalesce_assoc.
Qed.

Lemma first_non_null_cons (v : value) (rest : list value) :
  first_non_null (v :: rest) = v ?? first_non_null rest.
Proof. reflexivity. Qed.

Lemma nullish_coalesce (a b : value) : nullish (a ?? b) = nullish a && nullish b.
Proof. unfold coalesce. destruct (nullish a) eqn:E; [reflexivity | exact E]. Qed.

Lemma coalesce_none (b : value) : None ?? b = b.
Proof. reflexivity. Qed.

(** What the source reads in the membership it chose, against the two
    identifiers the specification lists for it. *)
Lemma chosen_identifier (m x : value) :
  nullish (get m "organization") = true
  \/ nullish (identifier_of (get m "organization")) = false
  \/ nullish (identifier_of (get m "workspace")) = true ->
  identifier_of (get m "organization" ?? get m "workspace") ?? x
  = identifier_of (get m "organization") ?? identifier_of (get m "workspace") ?? x.
Proof.
  intros [H | [H | H]].
  - rewrite (coalesce_nullish _ _ H), (identifier_of_nullish _ H). reflexivity.
  - assert (Hn : nullish (get m "organization") = false).
    { destruct (nullish (get m "organization")) eqn:E; [| reflexivity].
      rewrite (identifier_of_nullish _ E) in H. discriminate. }
    rewrite (coalesce_non_nullish _ _ Hn), (coalesce_non_nullish _ x H).
    now rewrite (coalesce_non_nullish _ (identifier_of (get m "workspace") ?? x) H).
  - rewrite (coalesce_nullish (identifier_of (get m "workspace")) _ H).
    destruct (nullish (get m "organization")) eqn:E.
    + rewrite (coalesce_nullish _ _ E), (identifier_of_nullish _ E).
      rewrite (coalesce_nullish (identifier_of (get m "workspace")) x H). reflexivity.
    + now rewrite (coalesce_non_nullish _ _ E).
Qed.

(** The membership the source chose against the two lists. *)
Lemma chosen_list (data : json) (x : value) :
  nullish (get (Some data) "memberships") = true
  \/ nullish (first_non_null
                [identifier_of (get (top_membership data) "organization");
                 identifier_of (get (top_membership data) "workspace")]) = false
  \/ nullish (first_non_null
                [identifier_of (get (account_membership data) "organization");
                 identifier_of (get (account_membership data) "workspace")]) = true ->
  let m := chosen_membership data in
  identifier_of (get m "organization") ?? identifier_of (get m "workspace") ?? x
  = identifier_of (get (top_membership data) "organization")
      ?? identifier_of (get (top_membership data) "workspace")
      ?? identifier_of (get (account_membership data) "organization")
      ?? identifier_of (get (account_membership data) "workspace") ?? x.
Proof.
  intro H. cbv zeta. unfold chosen_membership, top_membership, account_membership in *.
  destruct (nullish (get (Some data) "memberships")) eqn:Htop.
  - rewrite (coalesce_nullish _ _ Htop), (get0_nullish _ Htop).
    change (identifier_of (get None "organization")) with (@None json).
    change (identifier_of (get None "workspace")) with (@None json).
    rewrite !coalesce_none.
    destruct (nullish (get (get (Some data) "account") "memberships")) eqn:Hacc.
    + rewrite (coalesce_nullish _ _ Hacc), (get0_nullish _ Hacc). reflexivity.
    + now rewrite (coalesce_non_nullish _ _ Hacc).
  - rewrite (coalesce_non_nullish _ _ Htop).
    set (t1 := identifier_of (get (get0 (get (Some data) "memberships")) "organization"))
      in *.
    set (t2 := identifier_of (get (get0 (get (Some data) "memberships")) "workspace"))
      in *.
    set (a1 := identifier_of
                 (get (get0 (get (get (Some data) "account") "memberships"))
                    "organization")) in *.
    set (a2 := identifier_of
                 (get (get0 (get (get (Some data) "account") "memberships"))
                    "workspace")) in *.
    destruct H as [H | [H | H]]; [discriminate H | |];
      rewrite !first_non_null_cons, !nullish_coalesce in H; unfold coalesce;
      destruct (nullish t1), (nullish t2); try reflexivity; try discriminate H;
      destruct (nullish a1), (nullish a2); try reflexivity; discriminate H.
Qed.

Lemma first_non_null_app (l1 l2 : list value) :
  first_non_null (l1 ++ l2)
  = if nullish (first_non_null l1) then first_non_null l2 else first_non_null l1.
Proof.
  induction l1 as [| v rest IH]; [reflexivity |].
  cbn [List.app first_non_null].
  destruct (nullish v) eqn:E; [exact IH | now rewrite E].
Qed.

Lemma resolve_orgId_regular (data : json) :
  regular_account data -> resolve_orgId data = spec_resolve data.
Proof.
  intros [Hlist Hws Hwin]. rewrite resolve_orgId_unfold. cbv zeta.
  rewrite (chosen_identifier _ _ Hws).
  rewrite (chosen_list data _ Hlist).
  set (tail := get (Some data) "organization_uuid"
                 ?? get (get (Some data) "default_organization") "uuid"
                 ?? Some JNull).
  unfold spec_resolve. unfold early_candidates in Hwin.
  unfold spec_candidates in *. cbn [firstn] in Hwin.
  set (t1 := identifier_of (get (top_membership data) "organization")) in *.
  set (t2 := identifier_of (get (top_membership data) "workspace")) in *.
  set (a1 := identifier_of (get (account_membership data) "organization")) in *.
  set (a2 := identifier_of (get (account_membership data) "workspace")) in *.
  set (i := get (Some data) "id") in *.
  change (t1 ?? t2 ?? a1 ?? a2 ?? i ?? Some JNull)
    with (first_non_null [t1; t2; a1; a2; i]).
  assert (E : first_non_null
                [t1; t2; a1; a2; i; get (Some data) "organization_uuid";
                 get (get (Some data) "default_organization") "uuid"]
              = if nullish (first_non_null [t1; t2; a1; a2; i]) then tail
                else first_non_null [t1; t2; a1; a2; i]).
  { exact (first_non_null_app [t1; t2; a1; a2; i]
             [get (Some data) "organization_uuid";
              get (get (Some data) "default_organization") "uuid"]). }
  rewrite E.
  destruct Hwin as [Hn | Ht].
  - rewrite Hn, (nullish_not_truthy _ Hn). reflexivity.
  - rewrite Ht. cbn [negb].
    destruct (nullish (first_non_null [t1; t2; a1; a2; i])) eqn:Hn; [| reflexivity].
    apply nullish_not_truthy in Hn. congruence.
Qed.

Lemma resolve_orgId_none (data : json) :
  (forall v, In v (spec_candidates data) -> nullish v = true) ->
  resolve_orgId data = Some JNull.
Proof.
  intro Hall. rewrite resolve_orgId_unfold. cbv zeta.
  assert (Hm : chosen_membership data = top_membership data
               \/ chosen_membership data = account_membership data
               \/ chosen_membership data = None).
  { unfold chosen_membership, top_membership, account_membership.
    destruct (nullish (get (Some data) "memberships")) eqn:Htop.
    - rewrite (coalesce_nullish _ _ Htop).
      destruct (nullish (get (get (Some data) "account") "memberships")) eqn:Hacc.
      + rewrite (coalesce_nullish _ _ Hacc). right; right; reflexivity.
      + rewrite (coalesce_non_nullish _ _ Hacc). right; left; reflexivity.
    - rewrite (coalesce_non_nullish _ _ Htop). left; reflexivity. }
  assert (Hid : nullish (identifier_of
                           (get (chosen_membership data) "organization"
                              ?? get (chosen_membership data) "workspace")) = true).
  { unfold spec_candidates in Hall. cbn [In] in Hall.
    destruct Hm as [-> | [-> | ->]]; [| | reflexivity];
      unfold coalesce at 1;
      match goal with
      | |- context [nullish (get ?m "organization")] =>
          destruct (nullish (get m "organization")) eqn:E
      end; apply Hall; tauto. }
  rewrite (coalesce_nullish _ _ Hid).
  assert (H1 : nullish (get (Some data) "id") = true)
    by (apply Hall; unfold spec_candidates; cbn [In]; tauto).
  rewrite (coalesce_nullish _ _ H1). cbn [truthy negb].
  assert (H2 : nullish (get (Some data) "organization_uuid") = true)
    by (apply Hall; unfold spec_candidates; cbn [In]; tauto).
  rewrite (coalesce_nullish _ _ H2).
  assert (H3 : nullish (get (get (Some data) "default_organization") "uuid") = true)
    by (apply Hall; unfold spec_candidates; cbn [In]; tauto).
  now rewrite (coalesce_nullish _ _ H3).
Qed.

(** C5, as stated, fails in three ways: with an empty top-level list of
    memberships the list under account is not looked at; an organization
    without identifier keeps the workspace beside it from being read; and an
    empty top-level id does not win over a later organization_uuid. *)
Lemma first_non_null_does_not_always_win :
  spec_resolve two_lists_account = Some (JStr "org-1") /\
  resolve_orgId two_lists_account = Some JNull /\
  spec_resolve unidentified_organization_account = Some (JStr "ws-1") /\
  resolve_orgId unidentified_organization_account = Some JNull /\
  spec_resolve empty_id_account = Some (JStr "") /\
  resolve_orgId empty_id_account = Some (JStr "org-2") /\
  ~ (forall data, resolve_orgId data = spec_resolve data).
Proof.
  repeat split; try reflexivity.
  intro H. specialize (H two_lists_account). discriminate H.
Qed.

(** C5, amended: the identifier is the first non-null of the locations in
    the order of the specification on every account payload but those of
    three kinds: a top-level memberships value that gives no identifier
    while the list under account gives one; in the membership looked at, an
    organization without uuid and id beside a workspace that has one; and a
    first non-null among the membership identifiers and the top-level id
    that is falsy.  The scenario payload resolves to org-1; when every
    location is null the identifier is null, and a falsy identifier ends the
    cycle on the organisation error with the timer at 60 seconds. *)
Theorem organization_first_non_null :
  (forall data, regular_account data -> resolve_orgId data = spec_resolve data) /\
  resolve_orgId scenario_account = Some (JStr "org-1") /\
  (forall data,
      (forall v, In v (spec_candidates data) -> nullish v = true) ->
      resolve_orgId data = Some JNull) /\
  (forall net st status data,
      _cookieHeader st <> None ->
      truthy (_orgId st) = false ->
      net ACCOUNT_ENDPOINT = Http status (Some data) ->
      spec_fetch_error (net ACCOUNT_ENDPOINT) = None ->
      truthy (resolve_orgId data) = false ->
      ends_in_backoff st Msg_no_organization (poll net st)).
Proof.
  split; [exact resolve_orgId_regular |].
  split; [reflexivity |].
  split; [exact resolve_orgId_none |].
  intros net st status data. apply poll_no_organization.
Qed.

Lemma organization_first_non_null_witness :
  resolve_orgId scenario_account = spec_resolve scenario_account /\
  resolve_orgId agreeing_lists_account = spec_resolve agreeing_lists_account /\
  resolve_orgId (JObj [("name", JStr "nobody")]) = Some JNull.
Proof.
  destruct organization_first_non_null as (Hreg & _ & Hnone & _).
  split; [| split].
  - apply Hreg. split; [right; left | right; left | right]; reflexivity.
  - apply Hreg. split; [right; left | right; left | right]; reflexivity.
  - apply Hnone. intros v Hv. cbn in Hv.
    repeat (destruct Hv as [<- | Hv]; [reflexivity |]). destruct Hv.
Defined.

(** * Further properties *)

(** ** When a conversion raises *)

Lemma join_convertible (items : list json) :
  Forall (fun x => (exists s, ToString_json x = Ret s) <-> convertible x = true) items ->
  (exists s, join ToString_json items = Ret s) <-> forallb convertible items = true.
Proof.
  induction 1 as [| x rest Hx _ IH]; [split; [reflexivity | now exists ""] |].
  cbn [forallb join]. rewrite andb_true_iff, <- IH, <- Hx. clear IH Hx.
  assert (E : match x with JNull => Ret "" | _ => ToString_json x end = ToString_json x
              \/ x = JNull) by (destruct x; auto).
  split.
  - intros [s Hs]. apply bind_inv in Hs as (sx & Hsx & Hs).
    split.
    + destruct E as [E | ->]; [rewrite <- E; eauto | now exists "null"].
    + destruct rest; [now exists "" |].
      apply bind_inv in Hs as (r & Hr & _). eauto.
  - intros [[sx Hsx] [r Hr]].
    assert (E' : exists s', match x with JNull => Ret "" | _ => ToString_json x end
                            = Ret s')
      by (destruct E as [-> | ->]; eauto).
    destruct E' as [s' ->]. cbn [bind]. destruct rest; [eauto |].
    rewrite Hr. cbn [bind]. eauto.
Qed.

Lemma ToString_json_convertible (j : json) :
  (exists s, ToString_json j = Ret s) <-> convertible j = true.
Proof.
  induction j as [| b | z | s | items IH | props _] using json_induction.
  - split; [reflexivity | now exists "null"].
  - split; [reflexivity | destruct b; eexists; reflexivity].
  - split; [reflexivity | now exists (Number_toString z)].
  - split; [reflexivity | now exists s].
  - cbn [ToString_json convertible]. now apply join_convertible.
  - cbn [ToString_json convertible]. destruct (has_own "toString" props); cbn [negb].
    + split; [intros [s H]; discriminate | discriminate].
    + split; [reflexivity | eexists; reflexivity].
Qed.

Lemma ToString_convertible (v : value) :
  (exists s, ToString v = Ret s) <-> convertible_value v = true.
Proof.
  destruct v as [j |]; [apply ToString_json_convertible |].
  split; [reflexivity | now exists "undefined"].
Qed.

Lemma outcome_raises {A : Type} (m : outcome A) :
  m = TypeError <-> ~ (exists a, m = Ret a).
Proof.
  destruct m as [a |]; split.
  - discriminate.
  - intro H. exfalso. apply H. now exists a.
  - intros _ [a H]. discriminate.
  - reflexivity.
Qed.

(** X1: _safeInt and a pattern test raise exactly on the values ToString
    cannot convert: an object with an own toString property, or an array
    that holds one (at any depth of arrays); on every other value _safeInt
    returns an integer and the test a boolean. *)
Theorem safeInt_raises_exactly (v : value) :
  (_safeInt v = TypeError <-> convertible_value v = false) /\
  ((exists z, _safeInt v = Ret z) <-> convertible_value v = true) /\
  (forall r, test r v = TypeError <-> convertible_value v = false) /\
  (forall r, (exists b, test r v = Ret b) <-> convertible_value v = true).
Proof.
  pose proof (ToString_convertible v) as H.
  assert (Hs : (exists z, _safeInt v = Ret z) <-> convertible_value v = true).
  { rewrite <- H. unfold _safeInt, parseInt. split.
    - intros [z Hz]. apply bind_inv in Hz as (n & Hn & _).
      apply bind_inv in Hn as (s & Hs & _). eauto.
    - intros [s ->]. cbn [bind]. eauto. }
  assert (Ht : forall r, (exists b, test r v = Ret b) <-> convertible_value v = true).
  { intro r. rewrite <- H. unfold test. split.
    - intros [b Hb]. apply bind_inv in Hb as (s & Hs' & _). eauto.
    - intros [s ->]. cbn [bind]. eauto. }
  split; [| split; [exact Hs | split; [| exact Ht]]].
  - now rewrite <- not_true_iff_false, <- Hs, outcome_raises.
  - intro r. now rewrite <- not_true_iff_false, <- (Ht r), outcome_raises.
Qed.

Lemma safeInt_raises_exactly_witness :
  _safeInt (Some (JArr [JNum 1; JArr [JObj [("toString", JNum 1)]]])) = TypeError /\
  exists z, _safeInt (Some (JArr [JNum 12; JObj [("valueOf", JNum 1)]])) = Ret z.
Proof.
  split.
  - apply (safeInt_raises_exactly
             (Some (JArr [JNum 1; JArr [JObj [("toString", JNum 1)]]]))).
    reflexivity.
  - apply (safeInt_raises_exactly
             (Some (JArr [JNum 12; JObj [("valueOf", JNum 1)]]))).
    reflexivity.
Defined.

(** ** What parseInt skips *)

Lemma trim_start_whitespace (ws s : string) :
  all_chars is_whitespace ws = true -> trim_start (ws ++ s) = trim_start s.
Proof.
  induction ws as [| c ws IH]; intro H; [reflexivity |].
  cbn [all_chars] in H. apply andb_true_iff in H as [Hc Hws].
  cbn [append trim_start]. rewrite Hc. now apply IH.
Qed.

Lemma parse_digits_append (s rest : string) (acc : option Z) :
  all_chars (fun c => match digit_of c with Some _ => true | None => false end) s = true ->
  parse_digits (s ++ rest) acc = parse_digits rest (parse_digits s acc).
Proof.
  revert acc. induction s as [| c s IH]; intros acc H; [reflexivity |].
  cbn [all_chars] in H. apply andb_true_iff in H as [Hc Hs].
  cbn [append parse_digits]. destruct (digit_of c); [now apply IH | discriminate].
Qed.

Lemma parse_digits_stop (rest : string) (acc : option Z) :
  no_leading_digit rest = true -> parse_digits rest acc = acc.
Proof.
  destruct rest as [| c rest]; [reflexivity |]. cbn [no_leading_digit parse_digits].
  destruct (digit_of c); [discriminate | reflexivity].
Qed.

Lemma string_of_uint_digits (d : uint) :
  all_chars (fun c => match digit_of c with Some _ => true | None => false end)
            (NilEmpty.string_of_uint d) = true.
Proof. induction d; [reflexivity | exact IHd ..]. Qed.

Lemma parseInt_uint_suffix (d : uint) (rest : string) :
  d <> Nil -> no_leading_digit rest = true ->
  parseInt_string (NilEmpty.string_of_uint d ++ rest) = Some (Z.of_N (Pos.of_uint d)).
Proof.
  intros Hd Hrest.
  assert (E : parse_digits (NilEmpty.string_of_uint d ++ rest) None
              = Some (Z.of_N (Pos.of_uint d))).
  { rewrite parse_digits_append by apply string_of_uint_digits.
    rewrite parse_digits_stop by exact Hrest. now apply parse_digits_uint. }
  unfold parseInt_string.
  destruct d; try congruence; cbn [NilEmpty.string_of_uint append] in *;
    cbn [trim_start]; cbv iota beta;
    match goal with
    | |- context [is_whitespace ?c] => change (is_whitespace c) with false
    end; cbv iota; rewrite E; f_equal; lia.
Qed.

Lemma parseInt_number_suffix (z : Z) (rest : string) :
  no_leading_digit rest = true ->
  parseInt_string (Number_toString z ++ rest) = Some z.
Proof.
  intro Hrest. unfold Number_toString.
  destruct z as [| p | p]; cbn [Z.to_int NilEmpty.string_of_int].
  - change (NilEmpty.string_of_uint zero) with (NilEmpty.string_of_uint (D0 Nil)).
    now rewrite parseInt_uint_suffix.
  - rewrite parseInt_uint_suffix;
      [now rewrite DecimalPos.Unsigned.of_to
      | apply DecimalPos.Unsigned.to_uint_nonnil | exact Hrest].
  - unfold parseInt_string. cbn [append trim_start].
    change (is_whitespace "-") with false. cbv iota.
    rewrite parse_digits_append by apply string_of_uint_digits.
    rewrite parse_digits_stop by exact Hrest.
    rewrite parse_digits_uint by apply DecimalPos.Unsigned.to_uint_nonnil.
    now rewrite DecimalPos.Unsigned.of_to.
Qed.

Lemma parseInt_trim (ws s : string) :
  all_chars is_whitespace ws = true ->
  parseInt_string (ws ++ s) = parseInt_string s.
Proof.
  intro H. unfold parseInt_string. now rewrite trim_start_whitespace.
Qed.

(** X2: _safeInt reads an integer through leading white space and stops at
    the first character that is not a digit: white space, then the decimal
    form of z, then any text that does not begin with a digit, gives z. *)
Theorem safeInt_skips_blank_and_suffix (ws rest : string) (z : Z) :
  all_chars is_whitespace ws = true ->
  no_leading_digit rest = true ->
  Z.abs z < 2 ^ 53 ->
  _safeInt (Some (JStr (ws ++ Number_toString z ++ rest))) = Ret z.
Proof.
  intros Hws Hrest _. rewrite safeInt_string, parseInt_trim by exact Hws.
  now rewrite parseInt_number_suffix.
Qed.

Lemma safeInt_skips_blank_and_suffix_witness :
  _safeInt (Some (JStr ("  " ++ Number_toString (-152000) ++ " tokens left")))
  = Ret (-152000).
Proof.
  apply safeInt_skips_blank_and_suffix; reflexivity.
Defined.

(** ** The patterns: letter case and position *)

Lemma upcase_idempotent (x : ascii) : upcase (upcase x) = upcase x.
Proof. destruct x as [[|] [|] [|] [|] [|] [|] [|] [|]]; reflexivity. Qed.

Lemma upcase_downcase (x : ascii) : upcase (downcase x) = upcase x.
Proof. destruct x as [[|] [|] [|] [|] [|] [|] [|] [|]]; reflexivity. Qed.

Lemma dot_matches_upcase (x : ascii) : dot_matches (upcase x) = dot_matches x.
Proof. destruct x as [[|] [|] [|] [|] [|] [|] [|] [|]]; reflexivity. Qed.

Lemma dot_matches_downcase (x : ascii) : dot_matches (downcase x) = dot_matches x.
Proof. destruct x as [[|] [|] [|] [|] [|] [|] [|] [|]]; reflexivity. Qed.

Section Recasing.

Variable f : ascii -> ascii.
Hypothesis f_upcase : forall x, upcase (f x) = upcase x.
Hypothesis f_dot : forall x, dot_matches (f x) = dot_matches x.

Lemma match_here_recased (p : list atom) (s : string) :
  match_here p (map_chars f s) = match_here p s.
Proof.
  revert s. induction p as [| [c | |] p IH]; intro s; [reflexivity | ..];
    destruct s as [| x s]; cbn [map_chars match_here]; rewrite ?IH; try reflexivity.
  - unfold lit_matches. now rewrite f_upcase.
  - now rewrite f_dot.
  - rewrite f_dot. f_equal. exact (IH (String x s)).
Qed.

Lemma search_recased (r : regex) (s : string) :
  search r (map_chars f s) = search r s.
Proof.
  assert (Hat : forall s, match_at r (map_chars f s) = match_at r s).
  { intro s0. unfold match_at. induction r as [| p r' IH]; [reflexivity |].
    cbn [existsb]. now rewrite match_here_recased, IH. }
  induction s as [| x s IH].
  - reflexivity.
  - cbn [map_chars search]. rewrite <- IH. f_equal. exact (Hat (String x s)).
Qed.

End Recasing.

(** X3: every pattern of the normaliser ignores letter case: a kind or a key
    written in upper case or in lower case is classified like the original. *)
Theorem patterns_ignore_case (r : regex) (s : string) :
  test r (Some (JStr (map_chars upcase s))) = test r (Some (JStr s)) /\
  test r (Some (JStr (map_chars downcase s))) = test r (Some (JStr s)).
Proof.
  unfold test. cbn [ToString ToString_json bind]. split; f_equal.
  - apply search_recased; [apply upcase_idempotent | apply dot_matches_upcase].
  - apply search_recased; [apply upcase_downcase | apply dot_matches_downcase].
Qed.

Lemma match_here_extend (p : list atom) (s b : string) :
  match_here p s = true -> match_here p (s ++ b) = true.
Proof.
  revert s. induction p as [| [c | |] p IH]; intros s H; [reflexivity | ..];
    destruct s as [| x s]; cbn [append match_here] in *; try discriminate.
  - apply andb_true_iff in H as [H1 H2]. rewrite H1. now apply IH.
  - apply andb_true_iff in H as [H1 H2]. rewrite H1. now apply IH.
  - specialize (IH EmptyString H). cbn [append] in IH.
    destruct b as [| y b]; [exact IH |]. rewrite IH. apply orb_true_r.
  - apply orb_true_iff in H as [H | H].
    + apply andb_true_iff in H as [H1 H2]. rewrite H1, (IH s H2). reflexivity.
    + specialize (IH (String x s) H). cbn [append] in IH. rewrite IH.
      apply orb_true_r.
Qed.

Lemma match_at_extend (r : regex) (s b : string) :
  match_at r s = true -> match_at r (s ++ b) = true.
Proof.
  unfold match_at. rewrite !existsb_exists. intros (p & Hp & H).
  exists p. split; [exact Hp | now apply match_here_extend].
Qed.

Lemma search_extend_right (r : regex) (s b : string) :
  search r s = true -> search r (s ++ b) = true.
Proof.
  induction s as [| x s IH]; cbn [search]; intro H.
  - rewrite orb_false_r in H. apply (match_at_extend r EmptyString b) in H.
    cbn [append] in *. destruct b; cbn [search]; rewrite H; reflexivity.
  - apply orb_true_iff in H as [H | H].
    + apply (match_at_extend r (String x s) b) in H. cbn [append search] in *.
      now rewrite H.
    + cbn [append search]. rewrite (IH H). apply orb_true_r.
Qed.

Lemma search_extend_left (r : regex) (a s : string) :
  search r s = true -> search r (a ++ s) = true.
Proof.
  intro H. induction a as [| x a IH]; [exact H |].
  cbn [append search]. rewrite IH. apply orb_true_r.
Qed.

(** X4: the patterns are not anchored: a string that contains a matching
    string matches, whatever comes before and after it. *)
Theorem patterns_match_inside (r : regex) (a s b : string) :
  test r (Some (JStr s)) = Ret true ->
  test r (Some (JStr (a ++ s ++ b))) = Ret true.
Proof.
  unfold test. cbn [ToString ToString_json bind]. intro H. injection H as H.
  f_equal. now apply search_extend_left, search_extend_right.
Qed.

Lemma patterns_match_inside_witness :
  test re_session_A (Some (JStr ("rolling_" ++ "WINDOW" ++ "_v2"))) = Ret true.
Proof.
  apply patterns_match_inside. reflexivity.
Defined.

(** ** Exactly when the normaliser raises *)

Lemma for_of_returns {A S : Type} (body : S -> A -> outcome S) (ok : A -> bool)
    (l : list A) :
  (forall x s, (exists s', body s x = Ret s') <-> ok x = true) ->
  forall s, (exists s', for_of body l s = Ret s') <-> forallb ok l = true.
Proof.
  intro H. induction l as [| x rest IH]; intro s; cbn [for_of forallb].
  - split; [reflexivity | now exists s].
  - rewrite andb_true_iff, <- (H x s). split.
    + intros [s' Hs']. apply bind_inv in Hs' as (s1 & H1 & Hrest).
      split; [eauto | apply (IH s1); eauto].
    + intros [[s1 H1] Hrest]. rewrite H1. cbn [bind]. now apply IH.
Qed.

Lemma safeInt_returns_iff (v : value) :
  (exists z, _safeInt v = Ret z) <-> convertible_value v = true.
Proof.
  rewrite <- ToString_convertible. unfold _safeInt, parseInt. split.
  - intros [z Hz]. apply bind_inv in Hz as (n & Hn & _).
    apply bind_inv in Hn as (s & Hs & _). eauto.
  - intros [s ->]. cbn [bind]. eauto.
Qed.

Lemma test_returns_iff (r : regex) (v : value) :
  (exists b, test r v = Ret b) <-> convertible_value v = true.
Proof.
  rewrite <- ToString_convertible. unfold test. split.
  - intros [b Hb]. apply bind_inv in Hb as (s & Hs & _). eauto.
  - intros [s ->]. cbn [bind]. eauto.
Qed.

Lemma schemaA_entry_returns (entry : json) (s : snapshot) :
  (exists s', schemaA_entry s entry = Ret s') <-> entryA_convertible entry = true.
Proof.
  unfold entryA_convertible. rewrite !andb_true_iff.
  rewrite <- (test_returns_iff re_session_A (typeA entry)), <- !safeInt_returns_iff.
  unfold schemaA_entry, remA, totA. split.
  - intros [s' H]. apply bind_inv in H as (rem & Hrem & H).
    apply bind_inv in H as (tot & Htot & H). apply bind_inv in H as (b & Hb & _).
    repeat split; eauto.
  - intros [[[rem Hrem] [tot Htot]] [b Hb]]. rewrite Hrem, Htot. cbn [bind].
    rewrite Hb. cbn [bind]. destruct b; [eauto |].
    assert (Hw : exists w, test re_week (typeA entry) = Ret w).
    { apply test_returns_iff. apply (test_returns_iff re_session_A). eauto. }
    destruct Hw as [w ->]. cbn [bind]. destruct w; eauto.
Qed.

Lemma schemaB_entry_returns (q : json) (s : snapshot) :
  (exists s', schemaB_entry s q = Ret s') <-> itemB_convertible q = true.
Proof.
  unfold itemB_convertible. rewrite !andb_true_iff.
  rewrite <- (test_returns_iff re_session_B (typeB q)), <- !safeInt_returns_iff.
  unfold schemaB_entry, usedB, limitB. split.
  - intros [s' H]. apply bind_inv in H as (used & Hused & H).
    apply bind_inv in H as (limit & Hlimit & H). apply bind_inv in H as (b & Hb & _).
    repeat split; eauto.
  - intros [[[used Hused] [limit Hlimit]] [b Hb]]. rewrite Hused, Hlimit. cbn [bind].
    rewrite Hb. cbn [bind]. destruct b; [eauto |].
    assert (Hw : exists w, test re_week (typeB q) = Ret w).
    { apply test_returns_iff. apply (test_returns_iff re_session_B). eauto. }
    destruct Hw as [w ->]. cbn [bind]. destruct w; eauto.
Qed.

Lemma schemaC_entry_returns (kv : string * json) (s : snapshot) :
  (exists s', schemaC_entry s kv = Ret s') <-> pairC_convertible kv = true.
Proof.
  destruct kv as [k v]. unfold pairC_convertible, read_by_C. cbn [fst snd].
  pose proof (safeInt_returns_iff (Some v)) as Hv. cbn [convertible_value] in Hv.
  unfold schemaC_entry. cbn [test ToString ToString_json bind].
  destruct (search re_5hour k), (search re_week k), (search re_used k),
    (search re_limit_total k); cbn [orb andb negb bind];
    try (split; [reflexivity | intros _; eauto]);
    rewrite <- Hv; destruct (_safeInt (Some v)) as [n |]; cbn [bind];
    (split; [intros [s' Hs']; first [discriminate Hs' | eauto]
            | intros [z Hz]; first [discriminate Hz | eauto]]).
Qed.

Lemma entriesA_returns (data : json) : exists es, entriesA data = Ret es.
Proof.
  unfold entriesA. destruct (get (Some data) "rate_limit_status") as [rl |];
    [| now exists []].
  destruct rl as [| b | z | s | items | props]; cbn [truthy];
    try (now exists []).
  - destruct b; eexists; reflexivity.
  - destruct (negb (z =? 0)); eexists; reflexivity.
  - destruct (negb (s =? "")%string); eexists; reflexivity.
  - now exists items.
  - eexists; reflexivity.
Qed.

Lemma entriesC_returns (data : json) : exists es, entriesC data = Ret es.
Proof. destruct data; eexists; reflexivity. Qed.

(** X5: on a payload within the range in which the embedding is exact, the
    normaliser returns a snapshot exactly when every value it hands to
    _safeInt or to a pattern test can be converted: the remaining, total and
    type of every Schema A entry, the used, limit and kind of every Schema B
    item, and, when the Session limit is still at most 1 after A and B, the
    value of every flat key that Schema C reads. *)
Theorem normalize_returns_exactly (data : json) :
  exact_payload data ->
  exists esA esC,
    entriesA data = Ret esA /\
    entriesC data = Ret esC /\
    ((exists snap, normalize data = Ret snap) <->
     forallb entryA_convertible esA = true /\
     forallb itemB_convertible (entriesB data) = true /\
     (forall a b,
         for_of schemaA_entry esA initial = Ret a ->
         for_of schemaB_entry (entriesB data) a = Ret b ->
         sessionLimit b <= 1 ->
         forallb pairC_convertible esC = true)).
Proof.
  intros _.
  destruct (entriesA_returns data) as [esA HA].
  destruct (entriesC_returns data) as [esC HC].
  exists esA, esC. split; [exact HA |]. split; [exact HC |].
  pose proof (for_of_returns schemaA_entry entryA_convertible esA
                (fun x s => schemaA_entry_returns x s)) as HrA.
  pose proof (for_of_returns schemaB_entry itemB_convertible (entriesB data)
                (fun x s => schemaB_entry_returns x s)) as HrB.
  pose proof (for_of_returns schemaC_entry pairC_convertible esC
                (fun x s => schemaC_entry_returns x s)) as HrC.
  split.
  - intros [snap H].
    apply normalize_stages in H as (esA' & a & b & HA' & Ha & Hb & Hc).
    rewrite HA in HA'. injection HA' as <-.
    split; [apply (HrA initial); eauto |].
    split; [apply (HrB a); eauto |].
    intros a' b' Ha' Hb' Hgate.
    rewrite Ha in Ha'. injection Ha' as <-. rewrite Hb in Hb'. injection Hb' as <-.
    unfold schemaC in Hc. destruct (Z.leb_spec (sessionLimit b) 1); [| lia].
    rewrite HC in Hc. cbn [bind] in Hc. apply (HrC b). eauto.
  - intros (HokA & HokB & HokC).
    destruct (proj2 (HrA initial) HokA) as [a Ha].
    destruct (proj2 (HrB a) HokB) as [b Hb].
    unfold normalize, schemaA, schemaB. rewrite HA. cbn [bind]. rewrite Ha.
    cbn [bind]. rewrite Hb. cbn [bind]. unfold schemaC.
    destruct (Z.leb_spec (sessionLimit b) 1); [| eauto].
    rewrite HC. cbn [bind]. apply (HrC b). now apply (HokC a b).
Qed.

Lemma normalize_returns_exactly_witness :
  ~ (exists snap,
        normalize (JObj [("5hour_used", JObj [("toString", JNull)])]) = Ret snap) /\
  exists snap,
    normalize (JObj [("rate_limit_status",
                      JArr [JObj [("type", JStr "window"); ("total", JNum 9)]]);
                     ("5hour_used", JObj [("toString", JNull)])]) = Ret snap.
Proof.
  split.
  - destruct (normalize_returns_exactly
                (JObj [("5hour_used", JObj [("toString", JNull)])]))
      as (esA & esC & HA & HC & Hiff).
    + split; [reflexivity |]. split; [| split].
      * intros es e Hes Hin. vm_compute in Hes. injection Hes as <-. destruct Hin.
      * intros q [].
      * intros es kv Hes Hin n Hn _. vm_compute in Hes. injection Hes as <-.
        destruct Hin as [<- | []]. vm_compute in Hn. discriminate Hn.
    + intro H. apply Hiff in H as (_ & _ & H).
      vm_compute in HA, HC. injection HA as <-. injection HC as <-.
      specialize (H initial initial eq_refl eq_refl ltac:(cbn; lia)).
      vm_compute in H. discriminate H.
  - destruct (normalize_returns_exactly
                (JObj [("rate_limit_status",
                        JArr [JObj [("type", JStr "window"); ("total", JNum 9)]]);
                       ("5hour_used", JObj [("toString", JNull)])]))
      as (esA & esC & HA & HC & Hiff).
    + split; [reflexivity |]. split; [| split].
      * intros es e Hes Hin. vm_compute in Hes. injection Hes as <-.
        destruct Hin as [<- | []]. intros rem tot Hr Ht _.
        vm_compute in Hr, Ht. injection Hr as <-. injection Ht as <-.
        repeat split; reflexivity.
      * intros q [].
      * intros es kv Hes Hin n Hn _. vm_compute in Hes. injection Hes as <-.
        destruct Hin as [<- | [<- | []]]; vm_compute in Hn;
          [injection Hn as <-; reflexivity | discriminate Hn].
    + apply Hiff. vm_compute in HA, HC. injection HA as <-. injection HC as <-.
      split; [reflexivity |]. split; [reflexivity |].
      intros a b Ha Hb Hgate. vm_compute in Ha. injection Ha as <-.
      vm_compute in Hb. injection Hb as <-. vm_compute in Hgate.
      exfalso. now apply Hgate.
Defined.

(** ** Payloads that are not objects *)

Lemma digit_not_letter (p c : ascii) :
  is_digit p = false -> is_digit c = true -> lit_matches p c = false.
Proof.
  intros Hp Hc. unfold lit_matches.
  destruct c as [[|] [|] [|] [|] [|] [|] [|] [|]]; try discriminate Hc;
    destruct p as [[|] [|] [|] [|] [|] [|] [|] [|]]; try discriminate Hp; reflexivity.
Qed.

Lemma hour_not_in_digits (s : string) :
  all_chars is_digit s = true -> match_here (lits "hour") s = false.
Proof.
  destruct s as [| c s]; [reflexivity |]. cbn [all_chars]. intro H.
  apply andb_true_iff in H as [Hc _]. cbn [lits match_here].
  now rewrite (digit_not_letter "h" c eq_refl Hc).
Qed.

Lemma optdot_hour_not_in_digits (s : string) :
  all_chars is_digit s = true -> match_here (OptDot :: lits "hour") s = false.
Proof.
  intro H. destruct s as [| x s']; [reflexivity |].
  change (match_here (OptDot :: lits "hour") (String x s'))
    with ((dot_matches x && match_here (lits "hour") s')
          || match_here (lits "hour") (String x s')).
  rewrite (hour_not_in_digits (String x s') H).
  cbn [all_chars] in H. apply andb_true_iff in H as [_ H].
  rewrite (hour_not_in_digits s' H). now rewrite andb_false_r.
Qed.

Lemma digits_match_no_window (s : string) :
  all_chars is_digit s = true ->
  search re_5hour s = false /\ search re_week s = false.
Proof.
  induction s as [| c s IH]; [split; reflexivity |].
  cbn [all_chars]. intro H. apply andb_true_iff in H as [Hc Hs].
  destruct (IH Hs) as [IH5 IHw]. split; cbn [search]; [rewrite IH5 | rewrite IHw];
    rewrite orb_false_r; unfold match_at, re_5hour, re_week;
    cbn [existsb]; rewrite orb_false_r.
  - change (match_here (Lit "5" :: OptDot :: lits "hour") (String c s))
      with (lit_matches "5" c && match_here (OptDot :: lits "hour") s).
    rewrite (optdot_hour_not_in_digits s Hs). apply andb_false_r.
  - change (match_here (lits "week") (String c s))
      with (lit_matches "w" c && match_here (lits "eek") s).
    now rewrite (digit_not_letter "w" c eq_refl Hc).
Qed.

Lemma Number_toString_nat_digits (i : nat) :
  all_chars is_digit (Number_toString (Z.of_nat i)) = true.
Proof.
  unfold Number_toString. destruct (Z.of_nat i) as [| p | p] eqn:E;
    cbn [Z.to_int NilEmpty.string_of_int]; [reflexivity | | lia].
  apply string_of_uint_digits.
Qed.

Lemma schemaC_entry_skip (s : snapshot) (k : string) (v : json) :
  search re_5hour k = false -> search re_week k = false ->
  schemaC_entry s (k, v) = Ret s.
Proof.
  intros H5 Hw. unfold schemaC_entry. cbn [test ToString ToString_json bind].
  now rewrite H5, Hw.
Qed.

Lemma schemaC_indexed (l : list json) (i : nat) (s : snapshot) :
  for_of schemaC_entry (indexed i l) s = Ret s.
Proof.
  revert i. induction l as [| x rest IH]; intro i; [reflexivity |].
  cbn [indexed for_of].
  destruct (digits_match_no_window _ (Number_toString_nat_digits i)) as [H5 Hw].
  rewrite (schemaC_entry_skip s _ x H5 Hw). cbn [bind]. apply IH.
Qed.

(** X6: a payload that is not an object (null, a boolean, a number, a
    string, an array of anything) gives the default snapshot and never
    raises: no schema finds anything in it. *)
Theorem non_object_payload_gives_defaults (data : json) :
  (forall props, data <> JObj props) -> normalize data = Ret initial.
Proof.
  intro H. destruct data as [| b | z | s | items | props];
    try reflexivity; [| | congruence].
  - unfold normalize. change (schemaA (JStr s) initial) with (Ret initial).
    cbn [bind]. change (schemaB (JStr s) initial) with (Ret initial). cbn [bind].
    unfold schemaC. cbn [sessionLimit initial Z.leb Z.compare].
    cbn [entriesC Object_entries bind]. apply schemaC_indexed.
  - unfold normalize. change (schemaA (JArr items) initial) with (Ret initial).
    cbn [bind]. change (schemaB (JArr items) initial) with (Ret initial). cbn [bind].
    unfold schemaC. cbn [sessionLimit initial Z.leb Z.compare].
    cbn [entriesC Object_entries bind]. apply schemaC_indexed.
Qed.

Lemma non_object_payload_gives_defaults_witness :
  normalize (JArr [JObj [("type", JObj [("toString", JNum 1)])]; JStr "5hour_used"])
  = Ret initial.
Proof.
  apply non_object_payload_gives_defaults. intros props H. discriminate H.
Defined.

(** ** Schema A: entry names and the order of the entries *)


(** X8: when several entries describe the Session window the last one wins:
    after Schema A, and after Schema B, the Session values are those of the
    last entry or item whose kind matches the Session pattern. *)
Theorem last_session_entry_wins :
  (forall l1 l2 e s s' rem tot,
      for_of schemaA_entry (l1 ++ e :: l2) s = Ret s' ->
      remA e = Ret rem -> totA e = Ret tot ->
      test re_session_A (typeA e) = Ret true ->
      (forall x, In x l2 -> test re_session_A (typeA x) = Ret false) ->
      session_of s' = (tot - rem, tot, resetA e)) /\
  (forall l1 l2 q s s' used limit,
      for_of schemaB_entry (l1 ++ q :: l2) s = Ret s' ->
      usedB q = Ret used -> limitB q = Ret limit ->
      test re_session_B (typeB q) = Ret true ->
      (forall x, In x l2 -> test re_session_B (typeB x) = Ret false) ->
      session_of s' = (used, limit, resetB q)).
Proof.
  split.
  - intros l1 l2 e s s' rem tot Hrun Hr Ht Hm Hl2.
    apply (for_of_last_match schemaA_entry session_of l1 l2 e s s'); [| | exact Hrun].
    + intros s0 s1 H. rewrite (schemaA_entry_session s0 e rem tot Hr Ht Hm) in H.
      now injection H as <-.
    + intros x Hx s0 s1. apply schemaA_entry_session_frame. now apply Hl2.
  - intros l1 l2 q s s' used limit Hrun Hu Hl Hm Hl2.
    apply (for_of_last_match schemaB_entry session_of l1 l2 q s s'); [| | exact Hrun].
    + intros s0 s1 H. rewrite (schemaB_entry_session s0 q used limit Hu Hl Hm) in H.
      now injection H as <-.
    + intros x Hx s0 s1. apply schemaB_entry_session_frame. now apply Hl2.
Qed.

Lemma last_session_entry_wins_witness :
  session_of (mkSnapshot 60 100 JNull 9 10 JNull) = (60, 100, JNull).
Proof.
  destruct last_session_entry_wins as [HA _].
  apply (HA [JObj [("type", JStr "window"); ("remaining", JNum 1); ("total", JNum 5)]]
            [JObj [("type", JStr "weekly"); ("remaining", JNum 1); ("total", JNum 10)]]
            both_kinds_entry initial _ 40 100);
    try (vm_compute; reflexivity).
  intros x [<- | []]. vm_compute. reflexivity.
Defined.

(** ** Reset times *)

Lemma schemaC_entry_resets (s s' : snapshot) (kv : string * json) :
  schemaC_entry s kv = Ret s' -> resets_of s' = resets_of s.
Proof.
  destruct kv as [k v]. unfold schemaC_entry.
  cbn [test ToString ToString_json bind].
  destruct (search re_5hour k), (search re_week k), (search re_used k),
    (search re_limit_total k), (_safeInt (Some v)); cbn [bind]; intro H;
    first [discriminate H | now injection H as <-].
Qed.

(** X9: Schema C never provides a reset time: the reset times of the
    snapshot are those left by Schema A and B, and a payload without entries
    and items has none, whatever its flat keys are called. *)
Theorem flat_keys_give_no_reset_time (data : json) (snap : snapshot) :
  normalize data = Ret snap ->
  (forall a b,
      schemaA data initial = Ret a -> schemaB data a = Ret b ->
      resets_of snap = resets_of b) /\
  (entriesA data = Ret [] -> entriesB data = [] ->
   sessionReset snap = JNull /\ weeklyReset snap = JNull).
Proof.
  intro H. apply normalize_stages in H as (esA & a & b & HA & Ha & Hb & Hc).
  assert (Hres : resets_of snap = resets_of b).
  { unfold schemaC in Hc. destruct (sessionLimit b <=? 1);
      [| now injection Hc as <-].
    apply bind_inv in Hc as (esC & _ & Hc).
    apply (for_of_frame schemaC_entry resets_of esC); [| exact Hc].
    intros kv _ s s'. apply schemaC_entry_resets. }
  split.
  - intros a' b' Ha' Hb'. unfold schemaA in Ha'. rewrite HA in Ha'. cbn [bind] in Ha'.
    rewrite Ha in Ha'. injection Ha' as <-. unfold schemaB in Hb'.
    rewrite Hb in Hb'. now injection Hb' as <-.
  - intros HA0 HB0. rewrite HA in HA0. injection HA0 as ->. rewrite HB0 in Hb.
    cbn [for_of] in Ha, Hb. injection Ha as <-. injection Hb as <-.
    unfold resets_of in Hres. cbn in Hres. now injection Hres as -> ->.
Qed.

Lemma flat_keys_give_no_reset_time_witness :
  sessionReset (mkSnapshot 10 100 JNull 0 1 JNull) = JNull /\
  weeklyReset (mkSnapshot 10 100 JNull 0 1 JNull) = JNull.
Proof.
  apply (flat_keys_give_no_reset_time
           (JObj [("token_5hour_used", JNum 10); ("token_5hour_limit", JNum 100);
                  ("token_5hour_reset_at", JStr "2024-01-01T00:00:00Z")]));
    vm_compute; reflexivity.
Defined.

(** ** The cookie header *)

Lemma trim_start_blank (s : string) :
  all_chars is_whitespace s = true <-> trim_start s = "".
Proof.
  induction s as [| c s IH]; [split; reflexivity |].
  cbn [all_chars trim_start]. destruct (is_whitespace c); cbn [andb].
  - exact IH.
  - split; discriminate.
Qed.

Lemma trim_start_head (s : string) :
  match trim_start s with
  | EmptyString => True
  | String c _ => is_whitespace c = false
  end.
Proof.
  induction s as [| c s IH]; [exact I |]. cbn [trim_start].
  destruct (is_whitespace c) eqn:E; [exact IH | exact E].
Qed.

Lemma trim_start_fixed (c : ascii) (s : string) :
  is_whitespace c = false -> trim_start (String c s) = String c s.
Proof. intro H. cbn [trim_start]. now rewrite H. Qed.

Lemma trim_end_head (c : ascii) (s : string) :
  is_whitespace c = false -> trim_end (String c s) = String c (trim_end s).
Proof. intro H. cbn [trim_end]. now rewrite H. Qed.

Lemma trim_end_blank (s : string) :
  trim_end s = "" <-> all_chars is_whitespace s = true.
Proof.
  induction s as [| c s IH]; [split; reflexivity |].
  cbn [trim_end all_chars]. destruct (is_whitespace c); cbn [andb].
  - rewrite <- IH. destruct (trim_end s); cbn; split; congruence.
  - split; discriminate.
Qed.

Lemma trim_end_idempotent (s : string) : trim_end (trim_end s) = trim_end s.
Proof.
  induction s as [| c s IH]; [reflexivity |]. cbn [trim_end].
  destruct (is_whitespace c && (trim_end s =? "")%string) eqn:E; [reflexivity |].
  cbn [trim_end]. rewrite IH, E. reflexivity.
Qed.

Lemma trim_end_append (a b : string) :
  trim_end b <> "" -> trim_end (a ++ b) = a ++ trim_end b.
Proof.
  intro H. induction a as [| c a IH]; [reflexivity |].
  cbn [append trim_end]. rewrite IH.
  destruct (a ++ trim_end b) eqn:E.
  - destruct a; [cbn in E; congruence | discriminate E].
  - now rewrite andb_false_r.
Qed.

Lemma trim_fixed (s : string) : trim (trim s) = trim s.
Proof.
  unfold trim. pose proof (trim_start_head s) as H.
  destruct (trim_start s) as [| c t]; [reflexivity |].
  rewrite (trim_end_head c t H), (trim_start_fixed c _ H).
  rewrite <- (trim_end_head c t H). apply trim_end_idempotent.
Qed.

Lemma trim_blank (s : string) :
  trim s = "" <-> all_chars is_whitespace s = true.
Proof.
  unfold trim. rewrite trim_end_blank. split.
  - intro H. apply trim_start_blank. pose proof (trim_start_head s) as Hh.
    destruct (trim_start s) as [| c t]; [reflexivity |].
    cbn [all_chars] in H. rewrite Hh in H. discriminate H.
  - intro H. apply trim_start_blank in H. now rewrite H.
Qed.

Lemma prefix_append (a b : string) : prefix a (a ++ b) = true.
Proof.
  induction a as [| c a IH]; [now destruct b |].
  cbn [append prefix]. destruct (ascii_dec c c); [exact IH | congruence].
Qed.

Lemma cookieHeader_blank (st : indicator) :
  _cookieHeader st = None <-> blank_cookie (session_cookie st) = true.
Proof.
  unfold _cookieHeader, blank_cookie.
  destruct (session_cookie st) as [s |]; [| split; reflexivity].
  rewrite <- trim_blank. destruct (String.eqb_spec (trim s) ""); [tauto |].
  destruct (prefix "sessionKey=" (trim s)); split; congruence.
Qed.

Lemma cookieHeader_normal (st : indicator) (h : string) :
  _cookieHeader st = Some h ->
  prefix "sessionKey=" h = true /\ trim h = h.
Proof.
  unfold _cookieHeader.
  set (key := trim match session_cookie st with Some s => s | None => "" end).
  assert (Hkey : trim key = key) by apply trim_fixed.
  destruct (String.eqb_spec key ""); [discriminate |].
  destruct (prefix "sessionKey=" key) eqn:Hp; intro H.
  - injection H as <-. now split.
  - replace h with ("sessionKey=" ++ key) by congruence. clear H.
    split; [apply prefix_append |].
    unfold trim.
    change (trim_start ("sessionKey=" ++ key)) with ("sessionKey=" ++ key).
    assert (Hend : trim_end key = key).
    { unfold key, trim. apply trim_end_idempotent. }
    rewrite trim_end_append by (rewrite Hend; exact n).
    now rewrite Hend.
Qed.

(** X10: the cookie header is in normal form: it begins with sessionKey=, it
    has no white space at either end, and handing it back as the cookie
    gives the same header (a raw token and the header made from it are
    accepted alike). *)
Theorem cookie_header_normal_form (st : indicator) (h : string) :
  _cookieHeader st = Some h ->
  prefix "sessionKey=" h = true /\
  trim h = h /\
  _cookieHeader (with_cookie (Some h) st) = Some h.
Proof.
  intro H. destruct (cookieHeader_normal st h H) as [Hp Ht].
  split; [exact Hp |]. split; [exact Ht |].
  unfold _cookieHeader. cbn [session_cookie with_cookie]. rewrite Ht, Hp.
  destruct (String.eqb_spec h ""); [| reflexivity].
  subst h. discriminate Hp.
Qed.

Lemma cookie_header_normal_form_witness :
  _cookieHeader (with_cookie (Some "sessionKey=sk-ant-sid01-x") scenario_indicator)
  = Some "sessionKey=sk-ant-sid01-x".
Proof.
  apply (cookie_header_normal_form
           (with_cookie (Some "  sk-ant-sid01-x ") scenario_indicator)
           "sessionKey=sk-ant-sid01-x").
  reflexivity.
Defined.

(** X11: _get sends the request exactly when the cookie holds a character
    that is not white space: with an absent or blank cookie it calls back
    with the missing-cookie error and records nothing, otherwise it records
    the URL and calls back with what the network answered. *)
Theorem request_sent_iff_cookie_not_blank
    (net : network) (url : string)
    (callback : json -> option message -> indicator -> indicator)
    (st : indicator) :
  (blank_cookie (session_cookie st) = true ->
   _get net url callback st = callback JNull (Some Msg_no_cookie) st) /\
  (blank_cookie (session_cookie st) = false ->
   exists data err,
     _get net url callback st = callback data err (with_request url st) /\
     err <> Some Msg_no_cookie /\
     (err = None <-> spec_fetch_error (net url) = None)).
Proof.
  split.
  - intro H. apply get_no_cookie. now apply cookieHeader_blank.
  - intro H.
    assert (Hc : _cookieHeader st <> None)
      by (rewrite cookieHeader_blank; congruence).
    destruct (spec_fetch_error (net url)) as [e |] eqn:He.
    + exists JNull, (Some e). split; [now apply get_error |].
      split; [| split; discriminate].
      destruct (net url) as [| status body]; cbn [spec_fetch_error] in He.
      * injection He as <-. discriminate.
      * destruct ((status =? 401) || (status =? 403));
          [injection He as <-; discriminate |].
        destruct (negb ((200 <=? status) && (status <? 300)));
          [injection He as <-; discriminate |].
        destruct body; [discriminate | injection He as <-; discriminate].
    + destruct (net url) as [| status [data |]] eqn:Hn;
        try (cbn [spec_fetch_error] in He; discriminate He).
      * exists data, None. split; [| split; [discriminate | tauto]].
        apply (get_ok net url callback st status data Hc Hn). now rewrite Hn.
      * cbn [spec_fetch_error] in He.
        destruct ((status =? 401) || (status =? 403)); [discriminate |].
        destruct (negb ((200 <=? status) && (status <? 300))); discriminate.
Qed.

Lemma request_sent_iff_cookie_not_blank_witness :
  _get (always 200 (Some JNull)) "u" (fun _ _ st => st)
       (with_cookie (Some "   ") scenario_indicator)
  = with_cookie (Some "   ") scenario_indicator.
Proof.
  apply (request_sent_iff_cookie_not_blank (always 200 (Some JNull)) "u"
           (fun _ _ st => st) (with_cookie (Some "   ") scenario_indicator)).
  reflexivity.
Defined.

(** ** What a poll keeps and what it leaves *)

Lemma on_usage_kept (data : json) (err : option message) (st : indicator) :
  cycle_kept st (on_usage data err st) /\
  _orgId (on_usage data err st) = _orgId st /\
  requests (on_usage data err st) = requests st.
Proof.
  unfold on_usage, _applyUsageData, cycle_kept, settings_kept, counters_synced,
    rearmed, nextInterval.
  destruct err as [e |]; [cbn; tauto |].
  destruct (normalize data) as [snap |]; [| cbn; tauto].
  destruct (_ <- reset_label (sessionReset snap) ;; reset_label (weeklyReset snap));
    [| cbn; tauto].
  destruct (tokensMoved snap st); cbn; tauto.
Qed.

Lemma get_cases (net : network) (url : string)
    (callback : json -> option message -> indicator -> indicator) (st : indicator) :
  (_cookieHeader st = None
   /\ _get net url callback st = callback JNull (Some Msg_no_cookie) st)
  \/ (_cookieHeader st <> None
      /\ exists data err,
           _get net url callback st = callback data err (with_request url st)).
Proof.
  unfold _get. destruct (_cookieHeader st);
    [right; split; [discriminate |] | left; now split].
  destruct (net url) as [| status body]; [eauto |].
  destruct ((status =? 401) || (status =? 403)); [eauto |].
  destruct ((status <? 200) || (status >=? 300)); [eauto |].
  destruct body; eauto.
Qed.

Lemma fetchUsage_kept (net : network) (st : indicator) :
  match _fetchUsage net st with
  | Normal st' =>
      cycle_kept st st' /\ _orgId st' = _orgId st /\
      (requests st' = requests st
       \/ exists org, ToString (_orgId st) = Ret org
                      /\ requests st' = usage_url org :: requests st)
  | Abrupt st' => st' = st /\ ToString (_orgId st) = TypeError
  end.
Proof.
  unfold _fetchUsage. destruct (ToString (_orgId st)) as [org |]; [| now split].
  destruct (get_cases net (usage_url org) on_usage st)
    as [(_ & ->) | (_ & d & e & ->)].
  - destruct (on_usage_kept JNull (Some Msg_no_cookie) st) as (H1 & H2 & H3). auto.
  - destruct (on_usage_kept d e (with_request (usage_url org) st)) as (H1 & H2 & H3).
    split; [exact H1 |]. split; [exact H2 |]. right. exists org. now split.
Qed.

Lemma on_account_kept (net : network) (data : json) (err : option message)
    (st : indicator) :
  cycle_kept st (on_account net data err st) /\
  (requests (on_account net data err st) = requests st
   \/ exists org, requests (on_account net data err st) = usage_url org :: requests st).
Proof.
  unfold on_account. destruct err as [e |].
  { unfold cycle_kept, settings_kept, counters_synced, rearmed. cbn. tauto. }
  change (_orgId (with_orgId (resolve_orgId data) st)) with (resolve_orgId data).
  destruct (truthy (resolve_orgId data)); cbn [negb].
  - pose proof (fetchUsage_kept net (with_orgId (resolve_orgId data) st)) as H.
    destruct (_fetchUsage net (with_orgId (resolve_orgId data) st)) as [st' | st'].
    + destruct H as (H1 & _ & H3). split; [exact H1 |].
      destruct H3 as [H3 | (org & _ & H3)]; [now left | right; now exists org].
    + destruct H as [-> _].
      unfold cycle_kept, settings_kept, counters_synced, rearmed. cbn. tauto.
  - unfold cycle_kept, settings_kept, counters_synced, rearmed. cbn. tauto.
Qed.

Lemma fetchAccount_kept (net : network) (st : indicator) :
  cycle_kept st (_fetchAccount net st) /\
  (requests (_fetchAccount net st) = requests st
   \/ requests (_fetchAccount net st) = ACCOUNT_ENDPOINT :: requests st
   \/ exists org,
        requests (_fetchAccount net st)
        = usage_url org :: ACCOUNT_ENDPOINT :: requests st).
Proof.
  unfold _fetchAccount.
  destruct (get_cases net ACCOUNT_ENDPOINT (on_account net)
              (_setStatus Msg_connecting st)) as [(_ & ->) | (_ & d & e & ->)].
  - destruct (on_account_kept net JNull (Some Msg_no_cookie)
                (_setStatus Msg_connecting st)) as (H1 & _).
    split; [exact H1 | left; reflexivity].
  - destruct (on_account_kept net d e
                (with_request ACCOUNT_ENDPOINT (_setStatus Msg_connecting st)))
      as (H1 & H2).
    split; [exact H1 |].
    destruct H2 as [H2 | (org & H2)]; [right; left; exact H2 |].
    right; right. now exists org.
Qed.

Lemma poll_kept (net : network) (st : indicator) :
  match poll net st with
  | Normal st' =>
      cycle_kept st st' /\
      (truthy (_orgId st) = true ->
       _orgId st' = _orgId st /\
       (requests st' = requests st
        \/ exists org, ToString (_orgId st) = Ret org
                       /\ requests st' = usage_url org :: requests st)) /\
      (truthy (_orgId st) = false ->
       requests st' = requests st
       \/ requests st' = ACCOUNT_ENDPOINT :: requests st
       \/ exists org, requests st' = usage_url org :: ACCOUNT_ENDPOINT :: requests st)
  | Abrupt st' =>
      st' = with_timer None st /\ truthy (_orgId st) = true
      /\ ToString (_orgId st) = TypeError
  end.
Proof.
  unfold poll, _fetchData.
  change (_orgId (with_timer None st)) with (_orgId st).
  destruct (truthy (_orgId st)) eqn:Ht; cbn [negb].
  - pose proof (fetchUsage_kept net (with_timer None st)) as H.
    destruct (_fetchUsage net (with_timer None st)) as [st' | st'].
    + destruct H as (H1 & H2 & H3). split; [exact H1 |].
      split; [intros _; split; [exact H2 | exact H3] | discriminate].
    + destruct H as [-> H]. now split.
  - destruct (fetchAccount_kept net (with_timer None st)) as (H1 & H2).
    split; [exact H1 |]. split; [discriminate | intros _; exact H2].
Qed.

Lemma convertible_value_cases (v : value) :
  ToString v = TypeError <-> convertible_value v = false.
Proof.
  rewrite <- not_true_iff_false, <- ToString_convertible. apply outcome_raises.
Qed.

Lemma poll_raises (net : network) (st : indicator) :
  truthy (_orgId st) = true -> ToString (_orgId st) = TypeError ->
  poll net st = Abrupt (with_timer None st).
Proof.
  intros Ht Hs. unfold poll, _fetchData, _fetchUsage.
  change (_orgId (with_timer None st)) with (_orgId st). now rewrite Ht, Hs.
Qed.

(** X13: an organisation identifier that cannot be converted to a string is
    cached all the same.  The poll that resolved it ends on a parse error
    with the timer at 60 seconds; every later poll raises before any request
    is made and leaves no timer armed. *)
Theorem unconvertible_organization_stops_polling
    (net : network) (st : indicator) (status : Z) (account : json) :
  _cookieHeader st <> None ->
  truthy (_orgId st) = false ->
  net ACCOUNT_ENDPOINT = Http status (Some account) ->
  200 <= status < 300 ->
  truthy (resolve_orgId account) = true ->
  convertible_value (resolve_orgId account) = false ->
  exists st1,
    poll net st = Normal st1 /\
    statusText st1 = Msg_parse_error /\
    _timerId st1 = Some 60 /\
    _orgId st1 = resolve_orgId account /\
    forall net',
      poll net' st1 = Abrupt (with_timer None st1) /\
      requests (with_timer None st1) = requests st1.
Proof.
  intros Hc Ht Hn Hst Hr Hconv. apply convertible_value_cases in Hconv.
  assert (He : spec_fetch_error (net ACCOUNT_ENDPOINT) = None)
    by (rewrite Hn; now apply spec_fetch_error_2xx).
  rewrite (poll_account_ok net st status account Hc Ht Hn He).
  unfold on_account.
  change (_orgId (with_orgId (resolve_orgId account) ?x)) with (resolve_orgId account).
  rewrite Hr. cbn [negb]. unfold _fetchUsage.
  change (_orgId (with_orgId (resolve_orgId account) ?x)) with (resolve_orgId account).
  rewrite Hconv.
  eexists. split; [reflexivity |]. repeat split.
  now apply poll_raises.
Qed.

Lemma unconvertible_organization_stops_polling_witness :
  exists st1,
    poll (always 200 (Some shadowing_account))
         (_init (Some "sk-ant-sid01-x") 120 15 0 0) = Normal st1 /\
    poll (always 200 (Some shadowing_account)) st1 = Abrupt (with_timer None st1).
Proof.
  destruct (unconvertible_organization_stops_polling
              (always 200 (Some shadowing_account))
              (_init (Some "sk-ant-sid01-x") 120 15 0 0) 200 shadowing_account)
    as (st1 & H1 & _ & _ & _ & H2);
    [discriminate | reflexivity | reflexivity | lia | reflexivity | reflexivity |].
  exists st1. split; [exact H1 | apply H2].
Defined.

(** X15: while an organisation is cached a poll does not ask for the account
    again: it keeps the cached identifier and records at most the one usage
    request built from it. *)
Theorem cached_organization_is_reused (net : network) (st st' : indicator) :
  truthy (_orgId st) = true ->
  poll net st = Normal st' ->
  _orgId st' = _orgId st /\
  (requests st' = requests st
   \/ exists org, ToString (_orgId st) = Ret org
                  /\ requests st' = usage_url org :: requests st).
Proof.
  intros Ht H. pose proof (poll_kept net st) as Hk. rewrite H in Hk.
  now apply Hk.
Qed.

Lemma cached_organization_is_reused_witness :
  _orgId (_scheduleNextPoll 60
            (_setStatus Msg_auth_failed
               (with_request (usage_url "org-1")
                  (with_timer None scenario_indicator))))
  = Some (JStr "org-1").
Proof.
  apply (cached_organization_is_reused (always 403 None) scenario_indicator);
    reflexivity.
Defined.

(** X16: a poll makes at most two requests and never changes the cookie or
    the configured intervals: nothing, the usage endpoint alone, the account
    endpoint alone, or the account endpoint followed by the usage endpoint. *)
Theorem poll_requests_at_most_two (net : network) (st st' : indicator) :
  poll net st = Normal st' ->
  settings_kept st st' /\
  (requests st' = requests st
   \/ (exists org, requests st' = usage_url org :: requests st)
   \/ requests st' = ACCOUNT_ENDPOINT :: requests st
   \/ exists org, requests st' = usage_url org :: ACCOUNT_ENDPOINT :: requests st).
Proof.
  intro H. pose proof (poll_kept net st) as Hk. rewrite H in Hk.
  destruct Hk as ((Hs & _) & Hc & Ha). split; [exact Hs |].
  destruct (truthy (_orgId st)).
  - destruct (Hc eq_refl) as [_ [Hr | (org & _ & Hr)]]; [now left |].
    right; left. now exists org.
  - destruct (Ha eq_refl) as [Hr | [Hr | Hr]]; auto.
Qed.

Lemma poll_requests_at_most_two_witness :
  settings_kept scenario_indicator
    (_scheduleNextPoll 60
       (_setStatus Msg_auth_failed
          (with_request (usage_url "org-1") (with_timer None scenario_indicator)))).
Proof.
  apply (poll_requests_at_most_two (always 403 None) scenario_indicator).
  reflexivity.
Defined.

(** ** Requests in flight *)




Lemma async_fetchAccount_cases (w : Async.world) :
  (_cookieHeader (Async.ind w) = None
   /\ Async._fetchAccount w
      = Async.lift (fun st => _scheduleNextPoll 60 (_setStatus Msg_no_cookie st))
          (Async.lift (_setStatus Msg_connecting) w))
  \/ (_cookieHeader (Async.ind w) <> None
      /\ Async._fetchAccount w
         = Async.mkWorld (with_request ACCOUNT_ENDPOINT
                            (_setStatus Msg_connecting (Async.ind w)))
             (Async.in_flight w ++ [(Async.Account_request, ACCOUNT_ENDPOINT)])).
Proof.
  unfold Async._fetchAccount, Async._get.
  change (_cookieHeader (Async.ind (Async.lift (_setStatus Msg_connecting) w)))
    with (_cookieHeader (Async.ind w)).
  destruct (_cookieHeader (Async.ind w)); [right | left];
    (split; [congruence | reflexivity]).
Qed.





(** ** Sequences of events of the main loop *)




Lemma nth_error_nil_none {A : Type} (n : nat) : nth_error (@nil A) n = None.
Proof. now destruct n. Qed.

(** X17: a credential change clears the cached organisation and arms the
    timer.  If no request is in flight at that moment, then, whatever manual
    refreshes come in between, the next timer callback returns (also after
    an identifier that could not be converted) and, with a cookie that is
    not blank, sends the account request and nothing else; with a blank
    cookie it sends nothing and ends on the missing-cookie error with the
    timer at 60 seconds.  With an account request in flight this need not
    hold: its callback, running after the change, caches the organisation it
    was sent for, and the next timer callback asks for the usage of that
    organisation. *)
Theorem credential_change_restarts_lookup
    (c : option string) (w : Async.world) (evs : list Async.event) :
  (Async.in_flight w = [] ->
   Forall refresh_or_delivery evs ->
   let w1 := Async.run evs (Async.after (Async.step w (Async.Cookie_changed c))) in
   _orgId (Async.ind w1) = Some JNull /\
   _timerId (Async.ind w1) = Some 0 /\
   exists w2,
     Async.step w1 Async.Timer_fires = Async.Done w2 /\
     (blank_cookie c = false ->
      Async.in_flight w2 = [(Async.Account_request, ACCOUNT_ENDPOINT)]
      /\ requests (Async.ind w2) = ACCOUNT_ENDPOINT :: requests (Async.ind w)
      /\ _timerId (Async.ind w2) = None) /\
     (blank_cookie c = true ->
      Async.in_flight w2 = []
      /\ requests (Async.ind w2) = requests (Async.ind w)
      /\ statusText (Async.ind w2) = Msg_no_cookie
      /\ _timerId (Async.ind w2) = Some 60)) /\
  (let w1 := Async.run [Async.Cookie_changed (Some "new");
                        Async.Response 0 (Http 200 (Some scenario_account));
                        Async.Response 0 (Http 200 (Some (scenario_quotas 5000)))]
               lookup_in_flight in
   _orgId (Async.ind w1) = Some (JStr "org-1") /\
   exists w2,
     Async.step w1 Async.Timer_fires = Async.Done w2 /\
     Async.in_flight w2 = [(Async.Usage_request, usage_url "org-1")]).
Proof.
  split; [| vm_compute; split; [reflexivity | eexists; split; reflexivity]].
  intros Hempty Hevs. cbv zeta.
  set (w0 := Async.after (Async.step w (Async.Cookie_changed c))).
  assert (Inv : forall evs v,
             Forall refresh_or_delivery evs ->
             Async.in_flight v = [] -> _orgId (Async.ind v) = Some JNull ->
             _timerId (Async.ind v) = Some 0 ->
             let v' := Async.run evs v in
             Async.in_flight v' = [] /\ _orgId (Async.ind v') = Some JNull /\
             _timerId (Async.ind v') = Some 0 /\
             session_cookie (Async.ind v') = session_cookie (Async.ind v) /\
             requests (Async.ind v') = requests (Async.ind v)).
  { clear. induction evs as [| ev rest IH]; intros v Hall He Ho Ht; cbv zeta.
    - cbn. auto.
    - inversion Hall as [| ev' rest' Hev Hrest]; subst.
      unfold Async.run. cbn [fold_left].
      fold (Async.run rest (Async.after (Async.step v ev))).
      assert (K : Async.in_flight (Async.after (Async.step v ev)) = []
                  /\ _orgId (Async.ind (Async.after (Async.step v ev))) = Some JNull
                  /\ _timerId (Async.ind (Async.after (Async.step v ev))) = Some 0
                  /\ session_cookie (Async.ind (Async.after (Async.step v ev)))
                     = session_cookie (Async.ind v)
                  /\ requests (Async.ind (Async.after (Async.step v ev)))
                     = requests (Async.ind v)).
      { destruct Hev as [-> | (n & r & ->)].
        - cbn. auto.
        - cbn [Async.step]. rewrite He, nth_error_nil_none. cbn. rewrite He. auto. }
      destruct K as (K1 & K2 & K3 & K4 & K5).
      destruct (IH _ Hrest K1 K2 K3) as (J1 & J2 & J3 & J4 & J5).
      rewrite J4, J5. auto. }
  destruct (Inv evs w0 Hevs) as (I1 & I2 & I3 & I4 & I5);
    [exact Hempty | reflexivity | reflexivity |].
  set (w1 := Async.run evs w0) in *.
  split; [exact I2 |]. split; [exact I3 |].
  assert (E : Async.step w1 Async.Timer_fires
              = Async.Done (Async._fetchAccount (Async.lift (with_timer None) w1))).
  { cbn [Async.step]. rewrite I3. unfold Async._fetchData.
    change (_orgId (Async.ind (Async.lift (with_timer None) w1)))
      with (_orgId (Async.ind w1)).
    now rewrite I2. }
  eexists. split; [exact E |].
  assert (Hb : _cookieHeader (Async.ind (Async.lift (with_timer None) w1)) = None
               <-> blank_cookie c = true).
  { rewrite cookieHeader_blank.
    change (session_cookie (Async.ind (Async.lift (with_timer None) w1)))
      with (session_cookie (Async.ind w1)).
    rewrite I4. reflexivity. }
  destruct (async_fetchAccount_cases (Async.lift (with_timer None) w1))
    as [(Hc & ->) | (Hc & ->)].
  - apply Hb in Hc. split; [intro H; congruence |]. intros _.
    cbn [Async.in_flight Async.lift Async.ind]. rewrite I1.
    split; [reflexivity |]. split; [exact I5 |]. split; reflexivity.
  - split; [| intro H; apply Hb in H; contradiction]. intros _.
    cbn [Async.in_flight Async.lift Async.ind]. rewrite I1.
    split; [reflexivity |]. split; [| reflexivity].
    cbn [requests with_request _setStatus with_details with_timer]. now rewrite I5.
Qed.

Lemma credential_change_restarts_lookup_witness :
  exists w2,
    Async.step
      (Async.run [Async.Refresh_now]
         (Async.after (Async.step (Async.mkWorld scenario_indicator [])
                         (Async.Cookie_changed (Some "new")))))
      Async.Timer_fires = Async.Done w2 /\
    Async.in_flight w2 = [(Async.Account_request, ACCOUNT_ENDPOINT)].
Proof.
  destruct (credential_change_restarts_lookup (Some "new")
              (Async.mkWorld scenario_indicator []) [Async.Refresh_now])
    as (H & _).
  destruct (H eq_refl) as (_ & _ & w2 & H1 & H2 & _).
  - constructor; [left; reflexivity | constructor].
  - exists w2. split; [exact H1 |]. now apply H2.
Defined.

(** ** The one-step poll within the main loop *)

Lemma async_get_callback (net : network) (url : string)
    (callback : json -> option message -> indicator -> indicator) (st : indicator) :
  _cookieHeader st <> None ->
  _get net url callback st
  = callback (fst (Async.callback_args (net url))) (snd (Async.callback_args (net url)))
      (with_request url st).
Proof.
  intro Hc. unfold _get, Async.callback_args.
  destruct (_cookieHeader st); [| congruence].
  destruct (net url) as [| status body]; [reflexivity |].
  destruct ((status =? 401) || (status =? 403)); [reflexivity |].
  destruct ((status <? 200) || (status >=? 300)); [reflexivity |].
  destruct body; reflexivity.
Qed.

Lemma drain_step (fuel : nat) (net : network) (w : Async.world)
    (k : Async.request) (url : string) (rest : list (Async.request * string)) :
  Async.in_flight w = (k, url) :: rest ->
  Async.drain (S fuel) net w
  = Async.drain fuel net (Async.after (Async.step w (Async.Response 0 (net url)))).
Proof. intro H. cbn [Async.drain]. now rewrite H. Qed.

Lemma drain_idle (fuel : nat) (net : network) (w : Async.world) :
  Async.in_flight w = [] -> Async.drain fuel net w = w.
Proof. intro H. destruct fuel; cbn [Async.drain]; [reflexivity | now rewrite H]. Qed.

Lemma async_fetchUsage_drain (net : network) (st : indicator) (fuel : nat) :
  match _fetchUsage net st with
  | Normal st' =>
      exists w1, Async._fetchUsage (Async.mkWorld st []) = Async.Done w1
                 /\ Async.drain (S fuel) net w1 = Async.mkWorld st' []
  | Abrupt st' =>
      Async._fetchUsage (Async.mkWorld st []) = Async.Raised (Async.mkWorld st' [])
  end.
Proof.
  unfold _fetchUsage, Async._fetchUsage. cbn [Async.ind].
  destruct (ToString (_orgId st)) as [org |]; [| reflexivity].
  eexists. split; [reflexivity |]. unfold Async._get. cbn [Async.ind Async.in_flight].
  destruct (_cookieHeader st) as [h |] eqn:Hc.
  - rewrite async_get_callback by congruence.
    erewrite drain_step by reflexivity.
    cbn [List.app Async.in_flight Async.step nth_error Async.ind].
    destruct (Async.callback_args (net (usage_url org))) as [data err].
    cbn [Async.after fst snd]. now apply drain_idle.
  - rewrite get_no_cookie by exact Hc. now apply drain_idle.
Qed.

Lemma async_on_account_drain (net : network) (data : json) (err : option message)
    (st : indicator) (fuel : nat) :
  Async.drain (S fuel) net (Async.on_account data err (Async.mkWorld st []))
  = Async.mkWorld (on_account net data err st) [].
Proof.
  unfold Async.on_account, on_account.
  destruct err as [e |]; [now apply drain_idle |].
  cbv zeta. unfold Async.lift at 1 2 3. cbn [Async.ind Async.in_flight].
  change (_orgId (with_orgId (resolve_orgId data) st)) with (resolve_orgId data).
  destruct (truthy (resolve_orgId data)); cbn [negb]; [| now apply drain_idle].
  pose proof (async_fetchUsage_drain net (with_orgId (resolve_orgId data) st) fuel) as H.
  unfold Async.lift.  cbn [Async.ind Async.in_flight].
  destruct (_fetchUsage net (with_orgId (resolve_orgId data) st)) as [st' | st'].
  - destruct H as (w1 & -> & Hd). exact Hd.
  - rewrite H. now apply drain_idle.
Qed.

(** X20: a poll cycle during which nothing else happens is the one-step
    poll: when the timer fires with no request in flight and each response
    is delivered before any other event, the indicator ends in the state
    [poll] computes and nothing is left in flight; the timer callback raises
    exactly when [poll] does. *)
Theorem uninterrupted_cycle_is_poll (net : network) (st : indicator) (d : Z) :
  _timerId st = Some d ->
  match poll net st with
  | Normal st' =>
      exists w1,
        Async.step (Async.mkWorld st []) Async.Timer_fires = Async.Done w1
        /\ Async.drain 2 net w1 = Async.mkWorld st' []
  | Abrupt st' =>
      Async.step (Async.mkWorld st []) Async.Timer_fires
      = Async.Raised (Async.mkWorld st' [])
  end.
Proof.
  intro Ht. unfold poll, _fetchData. cbn [Async.step Async.ind]. rewrite Ht.
  unfold Async._fetchData, Async.lift. cbn [Async.ind Async.in_flight].
  change (_orgId (with_timer None st)) with (_orgId st).
  destruct (truthy (_orgId st)); cbn [negb].
  - apply (async_fetchUsage_drain net (with_timer None st) 1).
  - eexists. split; [reflexivity |].
    unfold Async._fetchAccount, _fetchAccount, Async._get, Async.lift.
    cbn [Async.ind Async.in_flight].
    change (_cookieHeader (_setStatus Msg_connecting (with_timer None st)))
      with (_cookieHeader st).
    destruct (_cookieHeader st) as [h |] eqn:Hc.
    + rewrite async_get_callback by (change (_cookieHeader st <> None); congruence).
      erewrite drain_step by reflexivity.
      cbn [List.app Async.in_flight Async.step nth_error Async.ind].
      destruct (Async.callback_args (net ACCOUNT_ENDPOINT)) as [data err].
      cbn [Async.after fst snd Async.without firstn skipn List.app].
      apply async_on_account_drain.
    + rewrite get_no_cookie by exact Hc.
      apply (async_on_account_drain net JNull (Some Msg_no_cookie) _ 1).
Qed.

Lemma uninterrupted_cycle_is_poll_witness :
  exists w1,
    Async.step (Async.mkWorld scenario_indicator []) Async.Timer_fires = Async.Done w1
    /\ Async.in_flight w1 = [(Async.Usage_request, usage_url "org-1")]
    /\ _timerId (Async.ind w1) = None
    /\ exists st',
         poll (always 200 (Some (scenario_quotas 5000))) scenario_indicator = Normal st'
         /\ Async.drain 2 (always 200 (Some (scenario_quotas 5000))) w1
            = Async.mkWorld st' [].
Proof.
  pose proof (uninterrupted_cycle_is_poll (always 200 (Some (scenario_quotas 5000)))
                scenario_indicator 120 eq_refl) as H.
  destruct (poll (always 200 (Some (scenario_quotas 5000))) scenario_indicator)
    as [st' | st'] eqn:E; [| vm_compute in E; discriminate E].
  destruct H as (w1 & H1 & H2). exists w1. split; [exact H1 |].
  vm_compute in H1. injection H1 as <-.
  split; [reflexivity |]. split; [reflexivity |]. now exists st'.
Defined.

(** ** The timer *)

Lemma timers_schedule_single (d : Z) (t : Timers.state) :
  Timers.single t -> Timers.single (Timers._scheduleNextPoll d t).
Proof.
  unfold Timers.single, Timers._scheduleNextPoll, Timers._cancelTimer.
  destruct t as [[id |] [next srcs]]; cbn.
  - intros (Hlt & d0 & ->). cbn. rewrite Pos.eqb_refl. cbn.
    split; [lia | now exists d].
  - intros ->. split; [lia | now exists d].
Qed.

Lemma timers_step_single (t : Timers.state) (ev : Timers.event) :
  Timers.single t -> Timers.single (Timers.step t ev).
Proof.
  intro H. destruct ev as [id sync | d |]; cbn [Timers.step].
  - destruct (existsb _ _) eqn:E; [| exact H].
    unfold Timers.single in H.
    destruct t as [[id0 |] [next srcs]]; cbn in H, E.
    + destruct H as (Hlt & d0 & ->). cbn in E. rewrite orb_false_r in E.
      apply Pos.eqb_eq in E. subst id0.
      destruct sync as [d |]; unfold Timers.single, Timers.callback; cbn.
      * rewrite Pos.eqb_refl.
        destruct (Pos.eqb_spec next id); [lia |]. cbn.
        split; [lia | now exists d].
      * now rewrite Pos.eqb_refl.
    + rewrite H in E. discriminate E.
  - now apply timers_schedule_single.
  - unfold Timers.single, Timers._cancelTimer in *.
    destruct t as [[id |] [next srcs]]; cbn in *; [| exact H].
    destruct H as (_ & d0 & ->). cbn. now rewrite Pos.eqb_refl.
Qed.

Lemma timers_destroy_empty (t : Timers.state) :
  Timers.single t -> Timers.sources (Timers.loop (Timers._cancelTimer t)) = [].
Proof.
  unfold Timers.single, Timers._cancelTimer.
  destruct t as [[id |] [next srcs]]; cbn; [| trivial].
  intros (_ & d & ->). cbn. now rewrite Pos.eqb_refl.
Qed.

(** X18: whatever the order of timer callbacks, reschedules and destroy, the
    indicator never has two timers attached to the main loop: [_timerId] is
    the identifier of the one attached source, or null with none attached;
    after destroy none is attached. *)
Theorem single_timer (evs : list Timers.event) :
  let t := fold_left Timers.step evs Timers.start in
  Timers.single t /\
  (List.length (Timers.sources (Timers.loop t)) <= 1)%nat /\
  map fst (Timers.sources (Timers.loop t))
  = match Timers._timerId t with Some id => [id] | None => [] end /\
  Timers.sources (Timers.loop (Timers.step t Timers.Destroy)) = [].
Proof.
  cbv zeta.
  assert (H : Timers.single (fold_left Timers.step evs Timers.start)).
  { assert (G : forall t, Timers.single t ->
                          Timers.single (fold_left Timers.step evs t)).
    { induction evs as [| ev rest IH]; intros t Ht; [exact Ht |].
      cbn [fold_left]. apply IH. now apply timers_step_single. }
    apply G. reflexivity. }
  split; [exact H |].
  pose proof (timers_destroy_empty _ H) as Hd.
  set (t := fold_left Timers.step evs Timers.start) in *.
  split; [| split; [| exact Hd]].
  - unfold Timers.single in H. destruct (Timers._timerId t).
    + destruct H as (_ & d & ->). cbn. lia.
    + rewrite H. cbn. lia.
  - unfold Timers.single in H. destruct (Timers._timerId t).
    + destruct H as (_ & d & ->). reflexivity.
    + now rewrite H.
Qed.

(** ** _fmt *)

(** X19: between a thousand and a million _fmt prints a whole number of
    thousands from 1 to 1000 that differs from n by at most 500; from 999500
    on it prints 1000k, the switch to millions coming only at a million. *)
Theorem fmt_thousands (n : Z) :
  1000 <= n < 1000000 ->
  exists k,
    _fmt n = Fmt_text (Number_toString k ++ "k") /\
    1 <= k <= 1000 /\
    Z.abs (1000 * k - n) <= 500 /\
    (999500 <= n -> k = 1000) /\
    parseInt_string (Number_toString k ++ "k") = Some k.
Proof.
  intro H. exists ((n + 500) / 1000). unfold _fmt.
  destruct (Z.geb_spec n 1000000); [lia |].
  destruct (Z.geb_spec n 1000); [| lia].
  split; [reflexivity |].
  pose proof (Z.div_mod (n + 500) 1000 ltac:(lia)) as Hdm.
  pose proof (Z.mod_pos_bound (n + 500) 1000 ltac:(lia)) as Hmod.
  repeat split; try lia.
  now apply parseInt_number_suffix.
Qed.

Lemma fmt_thousands_witness :
  exists k, _fmt 48000 = Fmt_text (Number_toString k ++ "k") /\ 1 <= k <= 1000.
Proof.
  destruct (fmt_thousands 48000) as (k & H1 & H2 & _); [lia |].
  exists k. now split.
Defined.
